(** * Voice-activity detection and utterance segmentation of the Jarvis STT
    pipeline ([src/speech_analysis/stt.py]).

    Shallow embedding of [AudioConfig], [AudioBuffer] (the segmentation
    engine), [WakeWordDetector] and the continuous-mode part of [JarvisSTT].

    Numbers: the Python floats of the detector are modelled by exact
    rationals [Q]; the integer counters by [Z].  The square root used for
    the RMS is kept abstract (a section variable [sqrt]); the theorems say
    which of its properties they use.  Logging and the debug counter do not
    change the detector state and are left out. *)

From Stdlib Require Import ZArith QArith String Ascii List Bool Lia Lqa.
Import ListNotations.

Open Scope Q_scope.

(** ** Python helpers *)

(** [a < b] on floats. *)
Definition Qltb (a b : Q) : bool := negb (Qle_bool b a).

(** Python's builtin [max(a, b)]: keeps [a] unless [b > a]. *)
Definition py_max (a b : Q) : Q := if Qltb a b then b else a.

(** Python's builtin [min(a, b)]: keeps [a] unless [b < a]. *)
Definition py_min (a b : Q) : Q := if Qltb b a then b else a.

(** The last [n] elements of a list. *)
Definition lastn {A : Type} (n : nat) (l : list A) : list A :=
  skipn (length l - n) l.

(** [deque(maxlen=m).extend(xs)]: append, dropping from the left beyond [m]. *)
Definition deque_extend {A : Type} (m : nat) (d xs : list A) : list A :=
  lastn m (d ++ xs).

Fixpoint Qsum (l : list Q) : Q :=
  match l with
  | [] => 0
  | x :: r => x + Qsum r
  end.

(** [np.mean] of a non-empty sequence (a float has one value: the
    fraction is kept reduced). *)
Definition np_mean (l : list Q) : Q :=
  Qred (Qsum l / inject_Z (Z.of_nat (length l))).

(** A float64 result of [np.mean]: a number or NaN. *)
Inductive float64 : Type :=
| FNum (q : Q)
| FNaN.

Definition np_isnan (f : float64) : bool :=
  match f with FNaN => true | FNum _ => false end.

(** ** AudioConfig *)

Record AudioConfig := mkAudioConfig {
  sample_rate : Q;
  channels : Z;
  chunk_size : Q;
  silence_threshold : Q;
  silence_duration : Q;
  max_recording_time : Q
}.

(** The defaults of [AudioConfig.__init__]. *)
Definition default_config : AudioConfig :=
  mkAudioConfig 16000 1 1024 50 (3 # 10) 10.

(** [seconds * config.sample_rate / config.chunk_size] *)
Definition frames_for (cfg : AudioConfig) (seconds : Q) : Q :=
  seconds * sample_rate cfg / chunk_size cfg.

(** ** AudioBuffer *)

Record AudioBuffer := mkAudioBuffer {
  maxlen : nat;               (* maxlen of self.buffer *)
  buffer : list Z;            (* self.buffer, a deque of int16 samples *)
  is_recording : bool;
  silence_counter : Z;
  speech_detected : bool;
  recent_rms : list Q;        (* deque(maxlen=10) *)
  background_rms : Q;
  recording_chunks : Z
}.

(** [AudioBuffer.__init__(max_size)]. *)
Definition new_AudioBuffer (max_size : nat) : AudioBuffer :=
  mkAudioBuffer max_size [] false 0 false [] 0 0.

(** [AudioBuffer()] with the default [max_size = 32000]. *)
Definition fresh_AudioBuffer : AudioBuffer := new_AudioBuffer 32000.

Definition set_recent (s : AudioBuffer) (r : list Q) (bg : Q) : AudioBuffer :=
  mkAudioBuffer (maxlen s) (buffer s) (is_recording s) (silence_counter s)
    (speech_detected s) r bg (recording_chunks s).

Definition set_silence_counter (s : AudioBuffer) (c : Z) : AudioBuffer :=
  mkAudioBuffer (maxlen s) (buffer s) (is_recording s) c
    (speech_detected s) (recent_rms s) (background_rms s) (recording_chunks s).

Definition set_is_recording (s : AudioBuffer) (b : bool) : AudioBuffer :=
  mkAudioBuffer (maxlen s) (buffer s) b (silence_counter s)
    (speech_detected s) (recent_rms s) (background_rms s) (recording_chunks s).

Definition set_recording_chunks (s : AudioBuffer) (c : Z) : AudioBuffer :=
  mkAudioBuffer (maxlen s) (buffer s) (is_recording s) (silence_counter s)
    (speech_detected s) (recent_rms s) (background_rms s) c.

Definition set_buffer (s : AudioBuffer) (b : list Z) : AudioBuffer :=
  mkAudioBuffer (maxlen s) b (is_recording s) (silence_counter s)
    (speech_detected s) (recent_rms s) (background_rms s) (recording_chunks s).

(** Speech onset: [speech_detected = is_recording = True],
    [silence_counter = recording_chunks = 0]. *)
Definition start_recording (s : AudioBuffer) : AudioBuffer :=
  mkAudioBuffer (maxlen s) (buffer s) true 0 true
    (recent_rms s) (background_rms s) 0.

(** [np.mean(chunk.astype(np.float64) ** 2)] *)
Definition mean_square (chunk : list Z) : float64 :=
  FNum (np_mean (map (fun x => inject_Z (x * x)) chunk)).

(** The adaptive thresholds of [add_chunk], as the pair
    [(speech_threshold, silence_threshold)]. *)
Definition adaptive_thresholds (cfg : AudioConfig) (bg : Q) : Q * Q :=
  if Qltb 0 bg then
    (py_max (silence_threshold cfg * 2) (bg + 30),
     py_min (silence_threshold cfg) (bg + 10))
  else
    (silence_threshold cfg * 3, silence_threshold cfg * (1 # 2)).

Section Engine.

(** [np.sqrt] on a non-negative float. *)
Variable sqrt : Q -> Q.

(** The NaN / negative guard around [np.sqrt(mean_square)]. *)
Definition rms_of_mean_square (ms : float64) : Q :=
  if np_isnan ms then 0
  else match ms with
       | FNum q => if Qltb q 0 then 0 else sqrt q
       | FNaN => 0
       end.

(** The RMS computed at the top of [add_chunk]. *)
Definition chunk_rms (chunk : list Z) : Q :=
  if (length chunk =? 0)%nat then 0
  else rms_of_mean_square (mean_square chunk).

(** The maximum-recording-time check and the append at the end of
    [add_chunk]. *)
Definition max_recording_guard (s : AudioBuffer) (chunk : list Z)
    (cfg : AudioConfig) : AudioBuffer * bool :=
  if is_recording s then
    let s1 := set_recording_chunks s (recording_chunks s + 1) in
    if Qltb (frames_for cfg (max_recording_time cfg))
            (inject_Z (recording_chunks s1)) then
      (set_is_recording s1 false, true)
    else
      (set_buffer s1 (deque_extend (maxlen s1) (buffer s1) chunk), false)
  else (s, false).

(** [AudioBuffer.add_chunk(chunk, config)]: the new state and the result. *)
Definition add_chunk (s : AudioBuffer) (chunk : list Z) (cfg : AudioConfig)
    : AudioBuffer * bool :=
  let rms := chunk_rms chunk in
  let recent := lastn 10 (recent_rms s ++ [rms]) in
  let bg := if negb (speech_detected s) && (5 <=? length recent)%nat
            then np_mean recent else background_rms s in
  let s0 := set_recent s recent bg in
  let '(speech_threshold, silence_thr) := adaptive_thresholds cfg bg in
  if negb (speech_detected s0) && Qltb speech_threshold rms then
    max_recording_guard (start_recording s0) chunk cfg
  else if speech_detected s0 && Qle_bool rms silence_thr then
    let s1 := set_silence_counter s0 (silence_counter s0 + 1) in
    if Qltb (frames_for cfg (silence_duration cfg))
            (inject_Z (silence_counter s1)) then
      (set_is_recording s1 false, true)
    else max_recording_guard s1 chunk cfg
  else if speech_detected s0 && Qltb silence_thr rms then
    max_recording_guard (set_silence_counter s0 0) chunk cfg
  else max_recording_guard s0 chunk cfg.

(** Feeding frames one at a time; the list of results of [add_chunk]. *)
Fixpoint process_frames (s : AudioBuffer) (cfg : AudioConfig)
    (frames : list (list Z)) : AudioBuffer * list bool :=
  match frames with
  | [] => (s, [])
  | f :: fs =>
      let '(s1, b) := add_chunk s f cfg in
      let '(s2, bs) := process_frames s1 cfg fs in
      (s2, b :: bs)
  end.

End Engine.

(** [AudioBuffer.get_audio_data()]: the returned samples and the new state. *)
Definition get_audio_data (s : AudioBuffer) : list Z * AudioBuffer :=
  match buffer s with
  | [] => ([], s)
  | _ :: _ =>
      (buffer s,
       mkAudioBuffer (maxlen s) [] false 0 false
         (recent_rms s) (background_rms s) 0)
  end.

(** A concrete square root for evaluation: [floor(sqrt(n * d)) / d] for
    [q = n / d]; exact on perfect squares. *)
Definition sqrt_floor (q : Q) : Q :=
  Z.sqrt (Qnum q * Zpos (Qden q)) # Qden q.

(** ** WakeWordDetector *)

(** [str.lower] on ASCII characters. *)
Definition ascii_lower (c : ascii) : ascii :=
  let n := nat_of_ascii c in
  if (65 <=? n)%nat && (n <=? 90)%nat then ascii_of_nat (n + 32) else c.

Fixpoint str_lower (s : string) : string :=
  match s with
  | EmptyString => EmptyString
  | String c r => String (ascii_lower c) (str_lower r)
  end.

(** Python's [w in s] on strings. *)
Fixpoint str_contains (w s : string) : bool :=
  String.prefix w s ||
  match s with
  | EmptyString => false
  | String _ r => str_contains w r
  end.

Record WakeWordDetector := mkWakeWordDetector {
  wake_words : list string;
  last_detection : Q;
  cooldown : Q
}.

(** [WakeWordDetector.__init__(wake_words)]. *)
Definition new_WakeWordDetector (ws : list string) : WakeWordDetector :=
  mkWakeWordDetector (map str_lower ws) 0 2.

(** [WakeWordDetector.detect(text)], the value of [time.time()] at the call
    being [current_time]. *)
Definition detect (d : WakeWordDetector) (current_time : Q) (text : string)
    : WakeWordDetector * bool :=
  match text with
  | EmptyString => (d, false)
  | _ =>
      let text_lower := str_lower text in
      if Qltb (current_time - last_detection d) (cooldown d) then (d, false)
      else
        match find (fun w => str_contains w text_lower) (wake_words d) with
        | Some _ => (mkWakeWordDetector (wake_words d) current_time (cooldown d), true)
        | None => (d, false)
        end
  end.

(** A sequence of [detect] calls, each with its time. *)
Fixpoint detect_all (d : WakeWordDetector) (calls : list (Q * string))
    : WakeWordDetector * list bool :=
  match calls with
  | [] => (d, [])
  | (t, txt) :: cs =>
      let '(d1, b) := detect d t txt in
      let '(d2, bs) := detect_all d1 cs in
      (d2, b :: bs)
  end.

(** ** JarvisSTT in continuous mode *)

(** A thread running [_process_audio], by how far it got. *)
Inductive worker : Type :=
| WSpawned                     (* started, before the [is_processing] check *)
| WChecked                     (* passed the check *)
| WTranscribing (data : list Z) (* set [is_processing], holds [audio_data] *)
| WDone.

Record JarvisSTT := mkJarvisSTT {
  audio_buffer : AudioBuffer;
  is_listening : bool;
  is_processing : bool;
  workers : list worker;
  transcribed : list (list Z)   (* the samples handed to [transcribe] *)
}.

Fixpoint replace_nth {A : Type} (i : nat) (x : A) (l : list A) : list A :=
  match l, i with
  | [], _ => []
  | _ :: r, O => x :: r
  | y :: r, S j => y :: replace_nth j x r
  end.

Definition set_worker (st : JarvisSTT) (i : nat) (w : worker) : JarvisSTT :=
  mkJarvisSTT (audio_buffer st) (is_listening st) (is_processing st)
    (replace_nth i w (workers st)) (transcribed st).

Section Coordinator.

Variable sqrt : Q -> Q.
Variable config : AudioConfig.

(** [JarvisSTT._audio_callback] on one frame. *)
Definition audio_callback (st : JarvisSTT) (chunk : list Z) : JarvisSTT :=
  if negb (is_listening st) then st
  else
    let '(b, utterance_complete) := add_chunk sqrt (audio_buffer st) chunk config in
    let st1 := mkJarvisSTT b (is_listening st) (is_processing st)
                 (workers st) (transcribed st) in
    if utterance_complete then
      if negb (is_processing st1) then
        mkJarvisSTT b (is_listening st) (is_processing st)
          (workers st ++ [WSpawned]) (transcribed st)
      else st1   (* "Cannot start transcription - already processing" *)
    else st1.

(** One step of the [_process_audio] thread number [i]. *)
Definition worker_step (st : JarvisSTT) (i : nat) : JarvisSTT :=
  match nth_error (workers st) i with
  | Some WSpawned =>
      if is_processing st then set_worker st i WDone
      else set_worker st i WChecked
  | Some WChecked =>
      let '(audio_data, b) := get_audio_data (audio_buffer st) in
      mkJarvisSTT b (is_listening st) true
        (replace_nth i (WTranscribing audio_data) (workers st)) (transcribed st)
  | Some (WTranscribing audio_data) =>
      let tr := if (0 <? length audio_data)%nat
                then transcribed st ++ [audio_data] else transcribed st in
      mkJarvisSTT (audio_buffer st) (is_listening st) false
        (replace_nth i WDone (workers st)) tr
  | _ => st
  end.

Inductive event : Type :=
| EFrame (chunk : list Z)
| EWorker (i : nat).

Definition step (st : JarvisSTT) (e : event) : JarvisSTT :=
  match e with
  | EFrame c => audio_callback st c
  | EWorker i => worker_step st i
  end.

Definition run (st : JarvisSTT) (es : list event) : JarvisSTT :=
  fold_left step es st.

End Coordinator.

(** A listening coordinator with a fresh buffer and no thread. *)
Definition listening_JarvisSTT : JarvisSTT :=
  mkJarvisSTT fresh_AudioBuffer true false [] [].

(** The operations of an [AudioBuffer] seen from outside. *)
Inductive buffer_op : Type :=
| OpAddChunk (chunk : list Z) (cfg : AudioConfig)
| OpGetAudioData.

Definition apply_op (sqrt : Q -> Q) (s : AudioBuffer) (op : buffer_op)
    : AudioBuffer :=
  match op with
  | OpAddChunk c cfg => fst (add_chunk sqrt s c cfg)
  | OpGetAudioData => snd (get_audio_data s)
  end.

(** The claim's description of a wake-phrase match: some configured phrase
    occurs in the lower-cased text. *)
Definition wake_match (d : WakeWordDetector) (text : string) : bool :=
  existsb (fun w => str_contains w (str_lower text)) (wake_words d).

(** Configurations used in the concrete runs. *)
Definition short_max_config : AudioConfig :=
  mkAudioConfig 16000 1 1024 50 (3 # 10) (1 # 32).

Definition quarter_max_config : AudioConfig :=
  mkAudioConfig 16000 1 1024 50 (3 # 10) (1 # 4).

Definition second_chunk_config : AudioConfig :=
  mkAudioConfig 16000 1 16000 50 (3 # 10) 10.

(** Frames used in the concrete runs. *)
Definition loud_frame : list Z := [1000; -1000]%Z.
Definition loud_frame2 : list Z := [2000; -2000]%Z.
Definition zero_frame : list Z := [0; 0]%Z.

(** Deciding a closed comparison of rationals by evaluation. *)
Ltac Q_by_eval := vm_compute; first [reflexivity | discriminate].

(** A closed [Forall] over a literal list, element by element. *)
Ltac Forall_by_eval :=
  repeat (apply Forall_cons; [Q_by_eval|]); apply Forall_nil.

(** * Lemmas about the helpers *)

Lemma Qltb_true_iff (a b : Q) : Qltb a b = true <-> a < b.
Proof.
  unfold Qltb. rewrite negb_true_iff. split; intro H.
  - apply Qnot_le_lt. intro H'. apply Qle_bool_iff in H'. congruence.
  - destruct (Qle_bool b a) eqn:E; [|reflexivity].
    apply Qle_bool_iff in E. exfalso. apply (Qlt_not_le a b); assumption.
Qed.

Lemma Qltb_false_iff (a b : Q) : Qltb a b = false <-> b <= a.
Proof.
  unfold Qltb. rewrite negb_false_iff. apply Qle_bool_iff.
Qed.

Lemma Qle_bool_false_iff (a b : Q) : Qle_bool a b = false <-> b < a.
Proof.
  split; intro H.
  - apply Qnot_le_lt. intro H'. apply Qle_bool_iff in H'. congruence.
  - destruct (Qle_bool a b) eqn:E; [|reflexivity].
    apply Qle_bool_iff in E. exfalso. apply (Qlt_not_le b a); assumption.
Qed.

Lemma lastn_length_le {A : Type} (n : nat) (l : list A) :
  (length l <= n)%nat -> lastn n l = l.
Proof.
  intro H. unfold lastn. replace (length l - n)%nat with 0%nat by lia.
  reflexivity.
Qed.

Lemma lastn_app {A : Type} (n : nat) (a b : list A) :
  lastn n (a ++ b) = lastn (n - length b) a ++ lastn n b.
Proof.
  unfold lastn. rewrite length_app.
  destruct (Nat.le_gt_cases (length b) n) as [H | H].
  - replace (length a + length b - n)%nat with (length a - (n - length b))%nat
      by lia.
    rewrite skipn_app.
    replace (length b - n)%nat with 0%nat by lia.
    replace (length a - (n - length b) - length a)%nat with 0%nat by lia.
    reflexivity.
  - replace (n - length b)%nat with 0%nat by lia.
    rewrite Nat.sub_0_r, skipn_all, app_nil_l.
    rewrite skipn_app, skipn_all2 by lia. rewrite app_nil_l.
    f_equal. lia.
Qed.

Lemma lastn_lastn {A : Type} (m n : nat) (l : list A) :
  (m <= n)%nat -> lastn m (lastn n l) = lastn m l.
Proof.
  intro H. unfold lastn. rewrite length_skipn, skipn_skipn. f_equal. lia.
Qed.

Lemma deque_extend_extend {A : Type} (m : nat) (a b c : list A) :
  deque_extend m (deque_extend m a b) c = deque_extend m a (b ++ c).
Proof.
  unfold deque_extend. rewrite (lastn_app m (lastn m (a ++ b)) c).
  rewrite lastn_lastn by lia. rewrite <- lastn_app, app_assoc. reflexivity.
Qed.

Lemma lastn_nil_iff {A : Type} (n : nat) (l : list A) :
  (0 < n)%nat -> l <> [] -> lastn n l <> [].
Proof.
  intros Hn Hl E. unfold lastn in E.
  apply (f_equal (@length A)) in E. rewrite length_skipn in E.
  destruct l as [|x r]; [congruence|].
  cbn [length] in E. lia.
Qed.

(** [max_recording_guard] never sets [speech_detected] nor [is_recording]. *)
Lemma max_recording_guard_flags (s : AudioBuffer) chunk cfg :
  speech_detected (fst (max_recording_guard s chunk cfg)) = speech_detected s /\
  implb (is_recording (fst (max_recording_guard s chunk cfg)))
        (is_recording s) = true.
Proof.
  unfold max_recording_guard.
  destruct (is_recording s) eqn:R; simpl.
  - destruct (Qltb _ _); simpl; rewrite ?R; auto.
  - rewrite R. auto.
Qed.

(** [add_chunk] keeps [is_recording -> speech_detected]. *)
Lemma add_chunk_recording_speech sqrt s chunk cfg :
  implb (is_recording s) (speech_detected s) = true ->
  implb (is_recording (fst (add_chunk sqrt s chunk cfg)))
        (speech_detected (fst (add_chunk sqrt s chunk cfg))) = true.
Proof.
  intro Hinv. unfold add_chunk. cbv zeta.
  match goal with |- context [adaptive_thresholds cfg ?b] =>
    destruct (adaptive_thresholds cfg b) as [sp si];
    set (s0 := set_recent s (lastn 10 (recent_rms s ++ [chunk_rms sqrt chunk])) b)
  end.
  assert (H0 : implb (is_recording s0) (speech_detected s0) = true) by exact Hinv.
  destruct (negb (speech_detected s0) && Qltb sp (chunk_rms sqrt chunk)).
  { destruct (max_recording_guard_flags (start_recording s0) chunk cfg) as [A B].
    rewrite A. simpl. apply implb_true_r. }
  assert (G : forall t, implb (is_recording t) (speech_detected t) = true ->
            implb (is_recording (fst (max_recording_guard t chunk cfg)))
                  (speech_detected (fst (max_recording_guard t chunk cfg))) = true).
  { intros t Ht. destruct (max_recording_guard_flags t chunk cfg) as [A B].
    rewrite A. destruct (is_recording (fst _)); simpl in *; auto.
    rewrite B in Ht. exact Ht. }
  destruct (speech_detected s0 && Qle_bool (chunk_rms sqrt chunk) si).
  - destruct (Qltb _ _).
    + reflexivity.
    + apply G. exact H0.
  - destruct (speech_detected s0 && Qltb si (chunk_rms sqrt chunk));
      apply G; exact H0.
Qed.

Lemma py_min_le_l (a b : Q) : py_min a b <= a.
Proof.
  unfold py_min. destruct (Qltb b a) eqn:E.
  - apply Qltb_true_iff in E. apply Qlt_le_weak. exact E.
  - apply Qle_refl.
Qed.

Lemma py_max_ge_l (a b : Q) : a <= py_max a b.
Proof.
  unfold py_max. destruct (Qltb a b) eqn:E.
  - apply Qltb_true_iff in E. apply Qlt_le_weak. exact E.
  - apply Qle_refl.
Qed.

Lemma Qsum_nonneg (l : list Q) : Forall (Qle 0) l -> 0 <= Qsum l.
Proof.
  induction 1 as [|x r Hx Hr IH]; simpl.
  - apply Qle_refl.
  - apply (Qplus_le_compat 0 x 0 (Qsum r)) in IH; [|exact Hx].
    exact IH.
Qed.

Lemma mean_square_nonneg (chunk : list Z) :
  exists q, mean_square chunk = FNum q /\ 0 <= q.
Proof.
  eexists. split; [reflexivity|].
  unfold np_mean. rewrite Qred_correct. rewrite length_map.
  apply Qmult_le_0_compat.
  - apply Qsum_nonneg. apply Forall_forall. intros y Hy.
    apply in_map_iff in Hy. destruct Hy as [x [<- _]].
    change 0 with (inject_Z 0). rewrite <- Zle_Qle. nia.
  - apply Qinv_le_0_compat. change 0 with (inject_Z 0).
    rewrite <- Zle_Qle. lia.
Qed.

(** * The segmentation engine *)

(** C6: retrieving twice in a row gives nothing the second time. *)
Theorem get_audio_data_twice (s : AudioBuffer) :
  fst (get_audio_data (snd (get_audio_data s))) = [].
Proof.
  unfold get_audio_data. destruct (buffer s) as [|x r] eqn:E; simpl.
  - rewrite E. reflexivity.
  - reflexivity.
Qed.

(** C5 (amended): [get_audio_data] returns the accumulator; when it is
    non-empty it also clears it and resets [speech_detected],
    [is_recording], [silence_counter] and [recording_chunks]; when it is
    empty it returns an empty sequence and leaves the state as it was. *)
Theorem get_audio_data_retrieves (s : AudioBuffer) :
  fst (get_audio_data s) = buffer s /\
  buffer (snd (get_audio_data s)) = [] /\
  match buffer s with
  | [] => snd (get_audio_data s) = s
  | _ :: _ =>
      speech_detected (snd (get_audio_data s)) = false /\
      is_recording (snd (get_audio_data s)) = false /\
      silence_counter (snd (get_audio_data s)) = 0%Z /\
      recording_chunks (snd (get_audio_data s)) = 0%Z
  end.
Proof.
  unfold get_audio_data. destruct (buffer s) as [|x r] eqn:E; simpl.
  - rewrite E. repeat split.
  - repeat split.
Qed.

(** C5 counterexample: with [max_recording_time = 1/32] s (less than one
    1024-sample frame at 16 kHz) a loud first frame completes at once, the
    accumulator stays empty, and [get_audio_data] leaves [speech_detected]
    set. *)
Lemma get_audio_data_empty_keeps_speech :
  let s := fst (add_chunk sqrt_floor fresh_AudioBuffer loud_frame short_max_config) in
  snd (add_chunk sqrt_floor fresh_AudioBuffer loud_frame short_max_config) = true /\
  buffer s = [] /\ speech_detected s = true /\
  fst (get_audio_data s) = [] /\
  speech_detected (snd (get_audio_data s)) = true.
Proof.
  vm_compute. repeat split.
Qed.

(** C8: for a positive configured threshold the speech threshold is above
    the silence threshold, whatever the background estimate. *)
Theorem adaptive_thresholds_hysteresis (cfg : AudioConfig) (bg : Q)
    (Hthr : 0 < silence_threshold cfg) :
  snd (adaptive_thresholds cfg bg) < fst (adaptive_thresholds cfg bg).
Proof.
  unfold adaptive_thresholds. destruct (Qltb 0 bg); simpl.
  - pose proof (py_min_le_l (silence_threshold cfg) (bg + 10)) as H1.
    pose proof (py_max_ge_l (silence_threshold cfg * 2) (bg + 30)) as H2.
    lra.
  - lra.
Qed.

Lemma adaptive_thresholds_hysteresis_witness :
  0 < silence_threshold default_config /\
  snd (adaptive_thresholds default_config (5 # 2))
    < fst (adaptive_thresholds default_config (5 # 2)).
Proof.
  split.
  - vm_compute. reflexivity.
  - apply adaptive_thresholds_hysteresis. vm_compute. reflexivity.
Defined.

(** C9: an empty frame, or a NaN or negative mean square, gives an RMS of 0;
    for every non-empty frame the mean square is a number [q >= 0] and the
    RMS is [sqrt q], so the square root never sees a bad argument. *)
Theorem chunk_rms_guard (sqrt : Q -> Q) :
  chunk_rms sqrt [] = 0 /\
  rms_of_mean_square sqrt FNaN = 0 /\
  (forall q, q < 0 -> rms_of_mean_square sqrt (FNum q) = 0) /\
  (forall chunk, chunk <> [] ->
     exists q, mean_square chunk = FNum q /\ 0 <= q /\
               chunk_rms sqrt chunk = sqrt q).
Proof.
  split; [reflexivity|]. split; [reflexivity|]. split.
  - intros q Hq. unfold rms_of_mean_square. simpl.
    replace (Qltb q 0) with true; [reflexivity|].
    symmetry. apply Qltb_true_iff. exact Hq.
  - intros chunk Hne. destruct (mean_square_nonneg chunk) as [q [Hq H0]].
    exists q. split; [exact Hq|]. split; [exact H0|].
    unfold chunk_rms. destruct chunk as [|x r]; [congruence|].
    simpl length. cbv iota beta. rewrite Hq. unfold rms_of_mean_square. simpl.
    replace (Qltb q 0) with false; [reflexivity|].
    symmetry. apply Qltb_false_iff. exact H0.
Qed.

(** C10: in every state reached from a fresh buffer by [add_chunk] and
    [get_audio_data] calls, [is_recording] implies [speech_detected]. *)
Theorem recording_implies_speech_detected (sqrt : Q -> Q) (max_size : nat)
    (ops : list buffer_op) :
  implb (is_recording (fold_left (apply_op sqrt) ops (new_AudioBuffer max_size)))
        (speech_detected (fold_left (apply_op sqrt) ops (new_AudioBuffer max_size)))
  = true.
Proof.
  assert (G : forall s, implb (is_recording s) (speech_detected s) = true ->
            implb (is_recording (fold_left (apply_op sqrt) ops s))
                  (speech_detected (fold_left (apply_op sqrt) ops s)) = true).
  { induction ops as [|op ops IH]; intros s Hs; simpl; [exact Hs|].
    apply IH. destruct op as [c cfg|]; simpl.
    - apply add_chunk_recording_speech. exact Hs.
    - unfold get_audio_data. destruct (buffer s); simpl; [exact Hs|reflexivity]. }
  apply G. reflexivity.
Qed.

(** ** Silence alone never completes an utterance *)

Lemma Forall_skipn {A : Type} (P : A -> Prop) (n : nat) (l : list A) :
  Forall P l -> Forall P (skipn n l).
Proof.
  revert l. induction n as [|n IH]; intros l H; [exact H|].
  destruct H as [|x r _ Hr]; [constructor|]. apply IH. exact Hr.
Qed.

Lemma Qsum_zeros (l : list Q) : Forall (fun r => r = 0) l -> Qsum l = 0.
Proof.
  induction 1 as [|x r Hx _ IH]; [reflexivity|]. simpl. rewrite Hx, IH.
  reflexivity.
Qed.

Lemma np_mean_zeros (l : list Q) : Forall (fun r => r = 0) l -> np_mean l = 0.
Proof.
  intro H. unfold np_mean. rewrite Qsum_zeros by exact H.
  transitivity (Qred 0); [|reflexivity].
  apply Qred_complete. apply Qmult_0_l.
Qed.

Lemma chunk_rms_zero_frame (sqrt : Q -> Q) (Hsqrt : sqrt 0 = 0) (chunk : list Z) :
  Forall (fun x => x = 0%Z) chunk -> chunk_rms sqrt chunk = 0.
Proof.
  intro H. unfold chunk_rms.
  destruct (length chunk =? 0)%nat; [reflexivity|].
  unfold rms_of_mean_square, mean_square. simpl.
  rewrite np_mean_zeros.
  - rewrite Hsqrt. reflexivity.
  - apply Forall_map. eapply Forall_impl; [|exact H].
    intros x Hx. simpl. rewrite Hx. reflexivity.
Qed.

(** No speech detected, nothing recorded, and a zero background. *)
Definition quiet_state (s : AudioBuffer) : Prop :=
  speech_detected s = false /\ is_recording s = false /\
  Forall (fun r => r = 0) (recent_rms s) /\ background_rms s = 0.

Lemma add_chunk_quiet (sqrt : Q -> Q) (Hsqrt : sqrt 0 = 0) (cfg : AudioConfig)
    (Hthr : 0 <= silence_threshold cfg) (s : AudioBuffer) (chunk : list Z) :
  quiet_state s -> Forall (fun x => x = 0%Z) chunk ->
  snd (add_chunk sqrt s chunk cfg) = false /\
  quiet_state (fst (add_chunk sqrt s chunk cfg)).
Proof.
  intros [Hsd [Hir [Hr Hbg]]] Hz.
  pose proof (chunk_rms_zero_frame sqrt Hsqrt chunk Hz) as Hrms.
  assert (Hrec : Forall (fun r => r = 0)
                   (lastn 10 (recent_rms s ++ [chunk_rms sqrt chunk]))).
  { apply Forall_skipn. apply Forall_app. split; [exact Hr|].
    constructor; [exact Hrms|constructor]. }
  unfold add_chunk. cbv zeta. rewrite Hsd.
  match goal with |- context [adaptive_thresholds cfg ?b] =>
    assert (Hb : b = 0);
    [ destruct (_ && _); [apply np_mean_zeros; exact Hrec | exact Hbg] |];
    rewrite Hb
  end.
  unfold adaptive_thresholds. replace (Qltb 0 0) with false by reflexivity.
  cbv iota. rewrite Hrms.
  replace (Qltb (silence_threshold cfg * 3) 0) with false
    by (symmetry; apply Qltb_false_iff; lra).
  unfold max_recording_guard.
  cbn [set_recent speech_detected is_recording recent_rms background_rms].
  rewrite Hsd, Hir. cbn [negb andb fst snd].
  split; [reflexivity|]. rewrite Hrms in Hrec.
  unfold quiet_state; cbn [set_recent speech_detected is_recording recent_rms background_rms].
  split; [exact Hsd|]. split; [exact Hir|]. split; [exact Hrec|reflexivity].
Qed.

(** C2: a fresh engine fed only all-zero frames returns false on every
    frame, for any number of frames ([np.sqrt(0) = 0] and a non-negative
    configured threshold). *)
Theorem silence_never_completes (sqrt : Q -> Q) (Hsqrt : sqrt 0 = 0)
    (cfg : AudioConfig) (Hthr : 0 <= silence_threshold cfg)
    (frames : list (list Z))
    (Hzero : Forall (Forall (fun x => x = 0%Z)) frames) :
  snd (process_frames sqrt fresh_AudioBuffer cfg frames)
  = repeat false (length frames).
Proof.
  assert (G : forall s, quiet_state s ->
            snd (process_frames sqrt s cfg frames) = repeat false (length frames)).
  { induction Hzero as [|f fs Hf _ IH]; intros s Hs; [reflexivity|].
    simpl. destruct (add_chunk_quiet sqrt Hsqrt cfg Hthr s f Hs Hf) as [Hb Hs1].
    destruct (add_chunk sqrt s f cfg) as [s1 b] eqn:E. simpl in Hb, Hs1.
    specialize (IH s1 Hs1).
    destruct (process_frames sqrt s1 cfg fs) as [s2 bs]. simpl in *.
    rewrite Hb, IH. reflexivity. }
  apply G. repeat split; constructor.
Qed.

Lemma silence_never_completes_witness :
  sqrt_floor 0 = 0 /\ 0 <= silence_threshold default_config /\
  snd (process_frames sqrt_floor fresh_AudioBuffer default_config
         (repeat zero_frame 12)) = repeat false 12.
Proof.
  split; [reflexivity|]. split; [vm_compute; discriminate|].
  apply (silence_never_completes sqrt_floor eq_refl default_config).
  - vm_compute. discriminate.
  - apply Forall_forall. intros f Hf. apply repeat_spec in Hf. subst f.
    repeat constructor.
Defined.

(** ** Frames during a recording *)

Lemma process_frames_cons (sqrt : Q -> Q) (s : AudioBuffer) (cfg : AudioConfig)
    (f : list Z) (fs : list (list Z)) :
  process_frames sqrt s cfg (f :: fs) =
  let '(s1, b) := add_chunk sqrt s f cfg in
  let '(s2, bs) := process_frames sqrt s1 cfg fs in
  (s2, b :: bs).
Proof. reflexivity. Qed.

(** A frame above the silence threshold during a recording resets the
    silence counter, counts one recording chunk and is appended, unless
    the maximum recording time is passed. *)
Lemma add_chunk_recording_above (sqrt : Q -> Q) (cfg : AudioConfig)
    (s : AudioBuffer) (chunk : list Z) :
  speech_detected s = true -> is_recording s = true ->
  snd (adaptive_thresholds cfg (background_rms s)) < chunk_rms sqrt chunk ->
  speech_detected (fst (add_chunk sqrt s chunk cfg)) = true /\
  background_rms (fst (add_chunk sqrt s chunk cfg)) = background_rms s /\
  recording_chunks (fst (add_chunk sqrt s chunk cfg)) = (recording_chunks s + 1)%Z /\
  silence_counter (fst (add_chunk sqrt s chunk cfg)) = 0%Z /\
  maxlen (fst (add_chunk sqrt s chunk cfg)) = maxlen s /\
  if Qltb (frames_for cfg (max_recording_time cfg))
          (inject_Z (recording_chunks s + 1))
  then snd (add_chunk sqrt s chunk cfg) = true /\
       is_recording (fst (add_chunk sqrt s chunk cfg)) = false
  else snd (add_chunk sqrt s chunk cfg) = false /\
       is_recording (fst (add_chunk sqrt s chunk cfg)) = true /\
       buffer (fst (add_chunk sqrt s chunk cfg))
       = deque_extend (maxlen s) (buffer s) chunk.
Proof.
  intros Hsd Hir Hab. unfold add_chunk. cbv zeta. rewrite Hsd. cbn [negb andb].
  destruct (adaptive_thresholds cfg (background_rms s)) as [sp si] eqn:Ht.
  simpl in Hab.
  cbn [set_recent speech_detected]. rewrite Hsd. cbn [negb andb].
  replace (Qle_bool (chunk_rms sqrt chunk) si) with false
    by (symmetry; apply Qle_bool_false_iff; exact Hab).
  replace (Qltb si (chunk_rms sqrt chunk)) with true
    by (symmetry; apply Qltb_true_iff; exact Hab).
  unfold max_recording_guard.
  cbn [set_silence_counter set_recent is_recording recording_chunks
       set_recording_chunks].
  rewrite Hir.
  destruct (Qltb (frames_for cfg (max_recording_time cfg))
                 (inject_Z (recording_chunks s + 1))); cbn; rewrite ?Hsd, ?Hir;
    repeat split; reflexivity.
Qed.

(** C3: during a recording, frames above the silence threshold fed for
    more frames than [max_recording_time * sample_rate / chunk_size] make
    [add_chunk] return true (no silent frame needed), with [is_recording]
    false after that call; every earlier call returns false. *)
Theorem continuous_speech_forces_completion (sqrt : Q -> Q) (cfg : AudioConfig)
    (s : AudioBuffer) (frames : list (list Z))
    (Hsd : speech_detected s = true) (Hir : is_recording s = true)
    (Hnot_yet : inject_Z (recording_chunks s) <= frames_for cfg (max_recording_time cfg))
    (Habove : Forall (fun f => snd (adaptive_thresholds cfg (background_rms s))
                               < chunk_rms sqrt f) frames)
    (Hlong : frames_for cfg (max_recording_time cfg)
             < inject_Z (recording_chunks s + Z.of_nat (length frames))) :
  exists k, (k < length frames)%nat /\
    snd (process_frames sqrt s cfg (firstn (S k) frames)) = repeat false k ++ [true] /\
    is_recording (fst (process_frames sqrt s cfg (firstn (S k) frames))) = false.
Proof.
  revert s Hsd Hir Hnot_yet Habove Hlong.
  induction frames as [|f fs IH]; intros s Hsd Hir Hnot_yet Habove Hlong.
  - exfalso. simpl in Hlong. rewrite Z.add_0_r in Hlong.
    apply (Qlt_not_le _ _ Hlong). exact Hnot_yet.
  - inversion Habove as [|f' fs' Hf Hfs]; subst f' fs'.
    destruct (add_chunk_recording_above sqrt cfg s f Hsd Hir Hf)
      as [Hsd1 [Hbg1 [Hrc1 [_ [_ Hcase]]]]].
    destruct (Qltb (frames_for cfg (max_recording_time cfg))
                   (inject_Z (recording_chunks s + 1))) eqn:Hm.
    + destruct Hcase as [Hb Hir1]. exists 0%nat. split; [simpl; lia|].
      simpl. destruct (add_chunk sqrt s f cfg) as [s1 b]. simpl in *.
      subst b. split; [reflexivity|exact Hir1].
    + destruct Hcase as [Hb [Hir1 _]].
      apply Qltb_false_iff in Hm.
      destruct (IH (fst (add_chunk sqrt s f cfg)) Hsd1 Hir1) as [k [Hk [Hout Hrec]]].
      * rewrite Hrc1. exact Hm.
      * rewrite Hbg1. exact Hfs.
      * rewrite Hrc1. simpl length in Hlong.
        replace (recording_chunks s + 1 + Z.of_nat (length fs))%Z
          with (recording_chunks s + Z.of_nat (S (length fs)))%Z by lia.
        exact Hlong.
      * exists (S k). split; [simpl; lia|].
        change (firstn (S (S k)) (f :: fs)) with (f :: firstn (S k) fs).
        rewrite process_frames_cons.
        destruct (add_chunk sqrt s f cfg) as [s1 b]. cbn [fst snd] in *.
        subst b.
        destruct (process_frames sqrt s1 cfg (firstn (S k) fs)) as [s2 bs].
        cbn [fst snd] in *. rewrite Hout. split; [reflexivity|exact Hrec].
Qed.

Lemma continuous_speech_forces_completion_witness :
  exists k, (k < 3)%nat /\
    snd (process_frames sqrt_floor
           (fst (add_chunk sqrt_floor fresh_AudioBuffer loud_frame quarter_max_config))
           quarter_max_config (firstn (S k) (repeat loud_frame 3)))
    = repeat false k ++ [true] /\
    is_recording (fst (process_frames sqrt_floor
           (fst (add_chunk sqrt_floor fresh_AudioBuffer loud_frame quarter_max_config))
           quarter_max_config (firstn (S k) (repeat loud_frame 3)))) = false.
Proof.
  apply (continuous_speech_forces_completion sqrt_floor quarter_max_config
           (fst (add_chunk sqrt_floor fresh_AudioBuffer loud_frame quarter_max_config))
           (repeat loud_frame 3)).
  - vm_compute. reflexivity.
  - vm_compute. reflexivity.
  - vm_compute. discriminate.
  - cbn [repeat]. Forall_by_eval.
  - vm_compute. reflexivity.
Defined.

(** A recording in progress: the flags set, the background frozen at [bg],
    the counters at [c] and [rc], and the accumulator holding the last
    [m] samples of [acc]. *)
Definition recording_at (s : AudioBuffer) (bg : Q) (m : nat) (c rc : Z)
    (acc : list Z) : Prop :=
  speech_detected s = true /\ is_recording s = true /\ background_rms s = bg /\
  maxlen s = m /\ silence_counter s = c /\ recording_chunks s = rc /\
  buffer s = deque_extend m [] acc.

Lemma add_chunk_recording_silent (sqrt : Q -> Q) (cfg : AudioConfig)
    (s : AudioBuffer) (chunk : list Z) :
  speech_detected s = true -> is_recording s = true ->
  chunk_rms sqrt chunk <= snd (adaptive_thresholds cfg (background_rms s)) ->
  speech_detected (fst (add_chunk sqrt s chunk cfg)) = true /\
  background_rms (fst (add_chunk sqrt s chunk cfg)) = background_rms s /\
  maxlen (fst (add_chunk sqrt s chunk cfg)) = maxlen s /\
  silence_counter (fst (add_chunk sqrt s chunk cfg)) = (silence_counter s + 1)%Z /\
  if Qltb (frames_for cfg (silence_duration cfg))
          (inject_Z (silence_counter s + 1))
  then snd (add_chunk sqrt s chunk cfg) = true /\
       is_recording (fst (add_chunk sqrt s chunk cfg)) = false /\
       buffer (fst (add_chunk sqrt s chunk cfg)) = buffer s
  else recording_chunks (fst (add_chunk sqrt s chunk cfg))
         = (recording_chunks s + 1)%Z /\
       if Qltb (frames_for cfg (max_recording_time cfg))
               (inject_Z (recording_chunks s + 1))
       then snd (add_chunk sqrt s chunk cfg) = true /\
            is_recording (fst (add_chunk sqrt s chunk cfg)) = false
       else snd (add_chunk sqrt s chunk cfg) = false /\
            is_recording (fst (add_chunk sqrt s chunk cfg)) = true /\
            buffer (fst (add_chunk sqrt s chunk cfg))
            = deque_extend (maxlen s) (buffer s) chunk.
Proof.
  intros Hsd Hir Hle. unfold add_chunk. cbv zeta. rewrite Hsd. cbn [negb andb].
  destruct (adaptive_thresholds cfg (background_rms s)) as [sp si] eqn:Ht.
  simpl in Hle.
  cbn [set_recent speech_detected]. rewrite Hsd. cbn [negb andb].
  replace (Qle_bool (chunk_rms sqrt chunk) si) with true
    by (symmetry; apply Qle_bool_iff; exact Hle).
  cbn [set_silence_counter set_recent silence_counter].
  destruct (Qltb (frames_for cfg (silence_duration cfg))
                 (inject_Z (silence_counter s + 1))).
  - cbn. rewrite ?Hsd. repeat split; reflexivity.
  - unfold max_recording_guard.
    cbn [set_silence_counter set_recent is_recording recording_chunks
         set_recording_chunks].
    rewrite Hir.
    destruct (Qltb (frames_for cfg (max_recording_time cfg))
                   (inject_Z (recording_chunks s + 1))); cbn; rewrite ?Hsd, ?Hir;
      repeat split; reflexivity.
Qed.

Lemma process_frames_app (sqrt : Q -> Q) (s : AudioBuffer) (cfg : AudioConfig)
    (l1 l2 : list (list Z)) :
  process_frames sqrt s cfg (l1 ++ l2) =
  (fst (process_frames sqrt (fst (process_frames sqrt s cfg l1)) cfg l2),
   snd (process_frames sqrt s cfg l1)
   ++ snd (process_frames sqrt (fst (process_frames sqrt s cfg l1)) cfg l2)).
Proof.
  revert s. induction l1 as [|f l1 IH]; intro s.
  - simpl. destruct (process_frames sqrt s cfg l2); reflexivity.
  - simpl app. rewrite !process_frames_cons.
    destruct (add_chunk sqrt s f cfg) as [s1 b]. rewrite IH.
    destruct (process_frames sqrt s1 cfg l1) as [s2 bs]. simpl.
    destruct (process_frames sqrt s2 cfg l2). reflexivity.
Qed.

Lemma inject_Z_le_trans (a b : Z) (q : Q) :
  (a <= b)%Z -> inject_Z b <= q -> inject_Z a <= q.
Proof.
  intros H Hb. eapply Qle_trans; [|exact Hb]. rewrite <- Zle_Qle. exact H.
Qed.

Lemma recording_above_step (sqrt : Q -> Q) (cfg : AudioConfig) (s : AudioBuffer)
    (bg : Q) (m : nat) (c rc : Z) (acc f : list Z) :
  recording_at s bg m c rc acc ->
  snd (adaptive_thresholds cfg bg) < chunk_rms sqrt f ->
  inject_Z (rc + 1) <= frames_for cfg (max_recording_time cfg) ->
  snd (add_chunk sqrt s f cfg) = false /\
  recording_at (fst (add_chunk sqrt s f cfg)) bg m 0 (rc + 1) (acc ++ f).
Proof.
  intros [Hsd [Hir [Hbg [Hm [Hc [Hrc Hb]]]]]] Hab HM. subst bg.
  destruct (add_chunk_recording_above sqrt cfg s f Hsd Hir Hab)
    as [A [B [C [D [E F]]]]].
  rewrite Hrc in F, C.
  replace (Qltb (frames_for cfg (max_recording_time cfg)) (inject_Z (rc + 1)))
    with false in F by (symmetry; apply Qltb_false_iff; exact HM).
  destruct F as [F1 [F2 F3]]. split; [exact F1|].
  repeat split; try assumption; try congruence.
  rewrite F3, Hb, Hm. apply deque_extend_extend.
Qed.

Lemma recording_silent_step (sqrt : Q -> Q) (cfg : AudioConfig) (s : AudioBuffer)
    (bg : Q) (m : nat) (c rc : Z) (acc f : list Z) :
  recording_at s bg m c rc acc ->
  chunk_rms sqrt f <= snd (adaptive_thresholds cfg bg) ->
  inject_Z (c + 1) <= frames_for cfg (silence_duration cfg) ->
  inject_Z (rc + 1) <= frames_for cfg (max_recording_time cfg) ->
  snd (add_chunk sqrt s f cfg) = false /\
  recording_at (fst (add_chunk sqrt s f cfg)) bg m (c + 1) (rc + 1) (acc ++ f).
Proof.
  intros [Hsd [Hir [Hbg [Hm [Hc [Hrc Hb]]]]]] Hle HN HM. subst bg.
  destruct (add_chunk_recording_silent sqrt cfg s f Hsd Hir Hle)
    as [A [B [C [D F]]]].
  rewrite Hc in F, D. rewrite Hrc in F.
  replace (Qltb (frames_for cfg (silence_duration cfg)) (inject_Z (c + 1)))
    with false in F by (symmetry; apply Qltb_false_iff; exact HN).
  replace (Qltb (frames_for cfg (max_recording_time cfg)) (inject_Z (rc + 1)))
    with false in F by (symmetry; apply Qltb_false_iff; exact HM).
  destruct F as [F0 [F1 [F2 F3]]]. split; [exact F1|].
  repeat split; try assumption; try congruence.
  rewrite F3, Hb, Hm. apply deque_extend_extend.
Qed.

Lemma recording_silent_final (sqrt : Q -> Q) (cfg : AudioConfig) (s : AudioBuffer)
    (bg : Q) (m : nat) (c rc : Z) (acc f : list Z) :
  recording_at s bg m c rc acc ->
  chunk_rms sqrt f <= snd (adaptive_thresholds cfg bg) ->
  frames_for cfg (silence_duration cfg) < inject_Z (c + 1) ->
  snd (add_chunk sqrt s f cfg) = true /\
  buffer (fst (add_chunk sqrt s f cfg)) = deque_extend m [] acc.
Proof.
  intros [Hsd [Hir [Hbg [Hm [Hc [Hrc Hb]]]]]] Hle HN. subst bg.
  destruct (add_chunk_recording_silent sqrt cfg s f Hsd Hir Hle)
    as [A [B [C [D F]]]].
  rewrite Hc in F.
  replace (Qltb (frames_for cfg (silence_duration cfg)) (inject_Z (c + 1)))
    with true in F by (symmetry; apply Qltb_true_iff; exact HN).
  destruct F as [F1 [F2 F3]]. split; [exact F1|]. rewrite F3. exact Hb.
Qed.

(** The state after the completing silent frame: speech stays detected,
    recording stops, the background is kept and the silence counter is
    past its bound. *)
Lemma recording_silent_final_state (sqrt : Q -> Q) (cfg : AudioConfig)
    (s : AudioBuffer) (bg : Q) (m : nat) (c rc : Z) (acc f : list Z) :
  recording_at s bg m c rc acc ->
  chunk_rms sqrt f <= snd (adaptive_thresholds cfg bg) ->
  frames_for cfg (silence_duration cfg) < inject_Z (c + 1) ->
  speech_detected (fst (add_chunk sqrt s f cfg)) = true /\
  is_recording (fst (add_chunk sqrt s f cfg)) = false /\
  background_rms (fst (add_chunk sqrt s f cfg)) = bg /\
  silence_counter (fst (add_chunk sqrt s f cfg)) = (c + 1)%Z.
Proof.
  intros [Hsd [Hir [Hbg [Hm [Hc [Hrc Hb]]]]]] Hle HN. subst bg.
  destruct (add_chunk_recording_silent sqrt cfg s f Hsd Hir Hle)
    as [A [B [C [D F]]]].
  rewrite Hc in F, D.
  replace (Qltb (frames_for cfg (silence_duration cfg)) (inject_Z (c + 1)))
    with true in F by (symmetry; apply Qltb_true_iff; exact HN).
  destruct F as [F1 [F2 F3]]. repeat split; assumption.
Qed.

(** Once an utterance has completed (speech detected, recording off, the
    silence counter past its bound), a quiet frame completes it again. *)
Lemma add_chunk_completed_silent (sqrt : Q -> Q) (cfg : AudioConfig)
    (s : AudioBuffer) (chunk : list Z) :
  speech_detected s = true -> is_recording s = false ->
  chunk_rms sqrt chunk <= snd (adaptive_thresholds cfg (background_rms s)) ->
  frames_for cfg (silence_duration cfg) < inject_Z (silence_counter s + 1) ->
  snd (add_chunk sqrt s chunk cfg) = true /\
  speech_detected (fst (add_chunk sqrt s chunk cfg)) = true /\
  is_recording (fst (add_chunk sqrt s chunk cfg)) = false /\
  background_rms (fst (add_chunk sqrt s chunk cfg)) = background_rms s /\
  silence_counter (fst (add_chunk sqrt s chunk cfg)) = (silence_counter s + 1)%Z.
Proof.
  intros Hsd Hir Hle HN. unfold add_chunk. cbv zeta. rewrite Hsd. cbn [negb andb].
  destruct (adaptive_thresholds cfg (background_rms s)) as [sp si] eqn:Ht.
  simpl in Hle.
  cbn [set_recent speech_detected]. rewrite Hsd. cbn [negb andb].
  replace (Qle_bool (chunk_rms sqrt chunk) si) with true
    by (symmetry; apply Qle_bool_iff; exact Hle).
  cbn [set_silence_counter set_recent silence_counter].
  replace (Qltb (frames_for cfg (silence_duration cfg))
                (inject_Z (silence_counter s + 1)))
    with true by (symmetry; apply Qltb_true_iff; exact HN).
  cbn. rewrite ?Hsd. repeat split; reflexivity.
Qed.

Lemma completed_quiet_frames (sqrt : Q -> Q) (cfg : AudioConfig)
    (more : list (list Z)) :
  forall s, speech_detected s = true -> is_recording s = false ->
  frames_for cfg (silence_duration cfg) < inject_Z (silence_counter s) ->
  Forall (fun f => chunk_rms sqrt f <= snd (adaptive_thresholds cfg (background_rms s)))
    more ->
  snd (process_frames sqrt s cfg more) = repeat true (length more).
Proof.
  induction more as [|f fs IH]; intros s Hsd Hir HN Hq; [reflexivity|].
  inversion Hq as [|f' fs' Hf Hfs]; subst f' fs'.
  assert (HN1 : frames_for cfg (silence_duration cfg)
                < inject_Z (silence_counter s + 1)).
  { eapply Qlt_le_trans; [exact HN|]. rewrite <- Zle_Qle. lia. }
  destruct (add_chunk_completed_silent sqrt cfg s f Hsd Hir Hf HN1)
    as [A [B [C [D E]]]].
  rewrite process_frames_cons.
  destruct (add_chunk sqrt s f cfg) as [s1 b]. cbn [fst snd] in A, B, C, D, E.
  subst b.
  specialize (IH s1 B C).
  destruct (process_frames sqrt s1 cfg fs) as [s2 bs]. cbn [fst snd] in *.
  rewrite IH; [reflexivity| |].
  - rewrite E. exact HN1.
  - rewrite D. exact Hfs.
Qed.

Lemma onset_fresh (sqrt : Q -> Q) (cfg : AudioConfig) (m : nat) (f : list Z) :
  silence_threshold cfg * 3 < chunk_rms sqrt f ->
  1 <= frames_for cfg (max_recording_time cfg) ->
  snd (add_chunk sqrt (new_AudioBuffer m) f cfg) = false /\
  recording_at (fst (add_chunk sqrt (new_AudioBuffer m) f cfg)) 0 m 0 1 f.
Proof.
  intros Hon HM. unfold add_chunk. cbv zeta.
  set (r := chunk_rms sqrt f) in *.
  match goal with |- context [adaptive_thresholds cfg ?b] =>
    replace b with 0 by reflexivity end.
  replace (adaptive_thresholds cfg 0)
    with (silence_threshold cfg * 3, silence_threshold cfg * (1 # 2))
    by reflexivity.
  cbv iota beta.
  cbn [set_recent speech_detected new_AudioBuffer negb].
  replace (Qltb (silence_threshold cfg * 3) r) with true
    by (symmetry; apply Qltb_true_iff; exact Hon).
  cbn [andb]. unfold max_recording_guard.
  cbn [start_recording set_recent is_recording recording_chunks
       set_recording_chunks new_AudioBuffer].
  match goal with |- context [Qltb (frames_for ?c ?t) ?x] =>
    replace (Qltb (frames_for c t) x) with false
      by (symmetry; apply Qltb_false_iff; exact HM) end.
  cbn. repeat split; reflexivity.
Qed.

Lemma recording_above_frames (sqrt : Q -> Q) (cfg : AudioConfig) (bg : Q) (m : nat)
    (frames : list (list Z)) :
  forall s rc acc,
  recording_at s bg m 0 rc acc ->
  Forall (fun f => snd (adaptive_thresholds cfg bg) < chunk_rms sqrt f) frames ->
  inject_Z (rc + Z.of_nat (length frames)) <= frames_for cfg (max_recording_time cfg) ->
  snd (process_frames sqrt s cfg frames) = repeat false (length frames) /\
  recording_at (fst (process_frames sqrt s cfg frames)) bg m 0
    (rc + Z.of_nat (length frames)) (acc ++ concat frames).
Proof.
  induction frames as [|f fs IH]; intros s rc acc Hs Hab HM.
  - simpl. rewrite Z.add_0_r, app_nil_r. split; [reflexivity|exact Hs].
  - inversion Hab as [|f' fs' Hf Hfs]; subst f' fs'.
    cbn [length] in HM. rewrite Nat2Z.inj_succ in HM.
    destruct (recording_above_step sqrt cfg s bg m 0 rc acc f Hs Hf)
      as [Hb Hs1].
    { eapply inject_Z_le_trans; [|exact HM]. lia. }
    destruct (IH _ (rc + 1)%Z (acc ++ f) Hs1 Hfs) as [Hout Hs2].
    { replace (rc + 1 + Z.of_nat (length fs))%Z
        with (rc + Z.succ (Z.of_nat (length fs)))%Z by lia.
      exact HM. }
    rewrite process_frames_cons.
    destruct (add_chunk sqrt s f cfg) as [s1 b]. cbn [fst snd] in *. subst b.
    destruct (process_frames sqrt s1 cfg fs) as [s2 bs]. cbn [fst snd] in *.
    rewrite Hout. split; [reflexivity|].
    cbn [length concat]. rewrite Nat2Z.inj_succ, app_assoc.
    replace (rc + Z.succ (Z.of_nat (length fs)))%Z
      with (rc + 1 + Z.of_nat (length fs))%Z by lia.
    exact Hs2.
Qed.

Lemma recording_silent_frames (sqrt : Q -> Q) (cfg : AudioConfig) (bg : Q) (m : nat)
    (frames : list (list Z)) :
  forall s c rc acc,
  recording_at s bg m c rc acc ->
  Forall (fun f => chunk_rms sqrt f <= snd (adaptive_thresholds cfg bg)) frames ->
  inject_Z (c + Z.of_nat (length frames)) <= frames_for cfg (silence_duration cfg) ->
  inject_Z (rc + Z.of_nat (length frames)) <= frames_for cfg (max_recording_time cfg) ->
  snd (process_frames sqrt s cfg frames) = repeat false (length frames) /\
  recording_at (fst (process_frames sqrt s cfg frames)) bg m
    (c + Z.of_nat (length frames)) (rc + Z.of_nat (length frames))
    (acc ++ concat frames).
Proof.
  induction frames as [|f fs IH]; intros s c rc acc Hs Hle HN HM.
  - simpl. rewrite !Z.add_0_r, app_nil_r. split; [reflexivity|exact Hs].
  - inversion Hle as [|f' fs' Hf Hfs]; subst f' fs'.
    cbn [length] in HN, HM. rewrite Nat2Z.inj_succ in HN, HM.
    destruct (recording_silent_step sqrt cfg s bg m c rc acc f Hs Hf)
      as [Hb Hs1].
    { eapply inject_Z_le_trans; [|exact HN]. lia. }
    { eapply inject_Z_le_trans; [|exact HM]. lia. }
    destruct (IH _ (c + 1)%Z (rc + 1)%Z (acc ++ f) Hs1 Hfs) as [Hout Hs2].
    { replace (c + 1 + Z.of_nat (length fs))%Z
        with (c + Z.succ (Z.of_nat (length fs)))%Z by lia.
      exact HN. }
    { replace (rc + 1 + Z.of_nat (length fs))%Z
        with (rc + Z.succ (Z.of_nat (length fs)))%Z by lia.
      exact HM. }
    rewrite process_frames_cons.
    destruct (add_chunk sqrt s f cfg) as [s1 b]. cbn [fst snd] in *. subst b.
    destruct (process_frames sqrt s1 cfg fs) as [s2 bs]. cbn [fst snd] in *.
    rewrite Hout. split; [reflexivity|].
    cbn [length concat]. rewrite Nat2Z.inj_succ, app_assoc.
    replace (c + Z.succ (Z.of_nat (length fs)))%Z
      with (c + 1 + Z.of_nat (length fs))%Z by lia.
    replace (rc + Z.succ (Z.of_nat (length fs)))%Z
      with (rc + 1 + Z.of_nat (length fs))%Z by lia.
    exact Hs2.
Qed.

(** The run of [utterance_completes_once] from a fresh engine, with the
    state it ends in. *)
Lemma utterance_run (sqrt : Q -> Q) (cfg : AudioConfig)
    (loud silent : list (list Z))
    (Hthr : 0 <= silence_threshold cfg)
    (Hloud_ne : loud <> []) (Hsilent_ne : silent <> [])
    (Hloud : Forall (fun f => silence_threshold cfg * 3 < chunk_rms sqrt f) loud)
    (Hsilent : Forall (fun f => chunk_rms sqrt f <= silence_threshold cfg * (1 # 2))
                 silent)
    (Hn_le : inject_Z (Z.of_nat (length silent) - 1)
             <= frames_for cfg (silence_duration cfg))
    (Hn_gt : frames_for cfg (silence_duration cfg)
             < inject_Z (Z.of_nat (length silent)))
    (Hmax : inject_Z (Z.of_nat (length loud + length silent) - 1)
            <= frames_for cfg (max_recording_time cfg)) :
  snd (process_frames sqrt fresh_AudioBuffer cfg (loud ++ silent))
    = repeat false (length loud + length silent - 1) ++ [true] /\
  fst (get_audio_data (fst (process_frames sqrt fresh_AudioBuffer cfg (loud ++ silent))))
    = lastn 32000 (concat loud ++ concat (removelast silent)) /\
  fst (get_audio_data (fst (process_frames sqrt fresh_AudioBuffer cfg (loud ++ silent))))
    <> [] /\
  speech_detected (fst (process_frames sqrt fresh_AudioBuffer cfg (loud ++ silent))) = true /\
  is_recording (fst (process_frames sqrt fresh_AudioBuffer cfg (loud ++ silent))) = false /\
  background_rms (fst (process_frames sqrt fresh_AudioBuffer cfg (loud ++ silent))) = 0 /\
  frames_for cfg (silence_duration cfg)
    < inject_Z (silence_counter (fst (process_frames sqrt fresh_AudioBuffer cfg
                                        (loud ++ silent)))).
Proof.
  destruct loud as [|f0 lr]; [congruence|].
  destruct (exists_last Hsilent_ne) as [sp [sl Hsl]]. subst silent.
  rewrite removelast_last.
  inversion Hloud as [|f' lr' Hf0 Hlr]; subst f' lr'.
  apply Forall_app in Hsilent. destruct Hsilent as [Hsp Hsl].
  inversion Hsl as [|sl' nil' Hsl1 _]; subst sl' nil'.
  rewrite length_app in Hn_le, Hn_gt, Hmax. cbn [length] in Hn_le, Hn_gt, Hmax.
  (* the thresholds stay the initial ones: the background is never set *)
  assert (Hth : adaptive_thresholds cfg 0
                = (silence_threshold cfg * 3, silence_threshold cfg * (1 # 2)))
    by reflexivity.
  (* onset on the first loud frame *)
  destruct (onset_fresh sqrt cfg 32000 f0 Hf0) as [Hb0 Hs0].
  { eapply Qle_trans; [|exact Hmax]. change 1 with (inject_Z 1).
    rewrite <- Zle_Qle. lia. }
  (* the other loud frames *)
  destruct (recording_above_frames sqrt cfg 0 32000 lr _ 1%Z f0 Hs0)
    as [Hb1 Hs1].
  { eapply Forall_impl; [|exact Hlr]. intros f Hf. cbv beta in Hf |- *. rewrite Hth. cbn [snd]. lra. }
  { eapply inject_Z_le_trans; [|exact Hmax]. lia. }
  (* the silent frames before the last *)
  destruct (recording_silent_frames sqrt cfg 0 32000 sp _ 0%Z
              (1 + Z.of_nat (length lr))%Z (f0 ++ concat lr) Hs1) as [Hb2 Hs2].
  { rewrite Hth. exact Hsp. }
  { eapply inject_Z_le_trans; [|exact Hn_le]. lia. }
  { eapply inject_Z_le_trans; [|exact Hmax]. lia. }
  (* the last silent frame *)
  destruct (recording_silent_final sqrt cfg _ 0 32000 _ _ _ sl Hs2) as [Hb3 Hbuf].
  { rewrite Hth. exact Hsl1. }
  { eapply Qlt_le_trans; [exact Hn_gt|]. rewrite <- Zle_Qle. lia. }
  destruct (recording_silent_final_state sqrt cfg _ 0 32000 _ _ _ sl Hs2)
    as [Sd [Ir [Bg Sc]]].
  { rewrite Hth. exact Hsl1. }
  { eapply Qlt_le_trans; [exact Hn_gt|]. rewrite <- Zle_Qle. lia. }
  (* putting the runs together *)
  assert (Hf0ne : f0 <> []).
  { intro E. subst f0. unfold chunk_rms in Hf0. simpl in Hf0. lra. }
  change ((f0 :: lr) ++ sp ++ [sl]) with (f0 :: (lr ++ (sp ++ [sl]))).
  rewrite process_frames_cons. unfold fresh_AudioBuffer.
  destruct (add_chunk sqrt (new_AudioBuffer 32000) f0 cfg) as [s1 b1].
  cbn [fst snd] in Hb0, Hs0, Hs1, Hb1, Hs2, Hb2, Hb3, Hbuf, Sd, Ir, Bg, Sc. subst b1.
  rewrite process_frames_app.
  destruct (process_frames sqrt s1 cfg lr) as [s2 bs2].
  cbn [fst snd] in *. subst bs2.
  rewrite process_frames_app.
  destruct (process_frames sqrt s2 cfg sp) as [s3 bs3].
  cbn [fst snd] in *. subst bs3.
  rewrite process_frames_cons.
  destruct (add_chunk sqrt s3 sl cfg) as [s4 b4]. cbn [fst snd] in *. subst b4.
  cbn [process_frames fst snd].
  assert (Hacc : concat (f0 :: lr) ++ concat sp = (f0 ++ concat lr) ++ concat sp)
    by reflexivity.
  assert (Hne : buffer s4 <> []).
  { rewrite Hbuf. apply lastn_nil_iff; [apply Nat.ltb_lt; vm_compute; reflexivity|].
    destruct f0 as [|y f0']; [congruence|]. simpl. discriminate. }
  unfold get_audio_data. destruct (buffer s4) as [|x r] eqn:E4; [congruence|].
  cbn [fst]. split; [|split; [|split]].
  - cbn [length]. rewrite length_app. cbn [length].
    replace (S (length lr) + (length sp + 1) - 1)%nat
      with (S (length lr + length sp))%nat by lia.
    cbn [repeat app]. f_equal. rewrite repeat_app, <- app_assoc. reflexivity.
  - rewrite Hbuf. exact (f_equal (lastn 32000) Hacc).
  - discriminate.
  - split; [exact Sd|]. split; [exact Ir|]. split; [exact Bg|].
    rewrite Sc. eapply Qlt_le_trans; [exact Hn_gt|]. rewrite <- Zle_Qle. lia.
Qed.

(** C1 (amended): from a fresh engine, [k >= 1] loud frames (RMS above
    [3 * silence_threshold]) followed by exactly [n] silent frames (RMS at
    most [silence_threshold / 2]), where [n] is the first integer above
    [N = silence_duration * sample_rate / chunk_size] and
    [k + n - 1 <= max_recording_time * sample_rate / chunk_size]: [add_chunk]
    returns true exactly once, on the last frame, and [get_audio_data]
    returns the samples appended while recording (all frames but the last),
    kept to the last 32000 of them; that sequence is non-empty.  Every
    further frame of RMS at most [silence_threshold / 2] before retrieval
    makes [add_chunk] return true again. *)
Theorem utterance_completes_once (sqrt : Q -> Q) (cfg : AudioConfig)
    (loud silent : list (list Z))
    (Hthr : 0 <= silence_threshold cfg)
    (Hloud_ne : loud <> []) (Hsilent_ne : silent <> [])
    (Hloud : Forall (fun f => silence_threshold cfg * 3 < chunk_rms sqrt f) loud)
    (Hsilent : Forall (fun f => chunk_rms sqrt f <= silence_threshold cfg * (1 # 2))
                 silent)
    (Hn_le : inject_Z (Z.of_nat (length silent) - 1)
             <= frames_for cfg (silence_duration cfg))
    (Hn_gt : frames_for cfg (silence_duration cfg)
             < inject_Z (Z.of_nat (length silent)))
    (Hmax : inject_Z (Z.of_nat (length loud + length silent) - 1)
            <= frames_for cfg (max_recording_time cfg)) :
  snd (process_frames sqrt fresh_AudioBuffer cfg (loud ++ silent))
    = repeat false (length loud + length silent - 1) ++ [true] /\
  fst (get_audio_data (fst (process_frames sqrt fresh_AudioBuffer cfg (loud ++ silent))))
    = lastn 32000 (concat loud ++ concat (removelast silent)) /\
  fst (get_audio_data (fst (process_frames sqrt fresh_AudioBuffer cfg (loud ++ silent))))
    <> [] /\
  (forall more : list (list Z),
     Forall (fun f => chunk_rms sqrt f <= silence_threshold cfg * (1 # 2)) more ->
     snd (process_frames sqrt fresh_AudioBuffer cfg ((loud ++ silent) ++ more))
     = repeat false (length loud + length silent - 1) ++ repeat true (S (length more))).
Proof.
  destruct (utterance_run sqrt cfg loud silent Hthr Hloud_ne Hsilent_ne Hloud Hsilent
              Hn_le Hn_gt Hmax) as (H1 & H2 & H3 & Sd & Ir & Bg & Sc).
  split; [exact H1|]. split; [exact H2|]. split; [exact H3|].
  intros more Hmore. rewrite process_frames_app. cbn [snd]. rewrite H1.
  rewrite (completed_quiet_frames sqrt cfg more _ Sd Ir Sc).
  - rewrite <- app_assoc. reflexivity.
  - rewrite Bg. exact Hmore.
Qed.

Lemma utterance_completes_once_witness :
  snd (process_frames sqrt_floor fresh_AudioBuffer default_config
         ([loud_frame] ++ repeat zero_frame 5))
    = repeat false 5 ++ [true] /\
  fst (get_audio_data (fst (process_frames sqrt_floor fresh_AudioBuffer
         default_config ([loud_frame] ++ repeat zero_frame 5))))
    = lastn 32000 (concat [loud_frame] ++ concat (removelast (repeat zero_frame 5))) /\
  fst (get_audio_data (fst (process_frames sqrt_floor fresh_AudioBuffer
         default_config ([loud_frame] ++ repeat zero_frame 5)))) <> [] /\
  (forall more : list (list Z),
     Forall (fun f => chunk_rms sqrt_floor f
                      <= silence_threshold default_config * (1 # 2)) more ->
     snd (process_frames sqrt_floor fresh_AudioBuffer default_config
            (([loud_frame] ++ repeat zero_frame 5) ++ more))
     = repeat false 5 ++ repeat true (S (length more))).
Proof.
  apply (utterance_completes_once sqrt_floor default_config [loud_frame]
           (repeat zero_frame 5)).
  - vm_compute. discriminate.
  - discriminate.
  - discriminate.
  - Forall_by_eval.
  - cbn [repeat]. Forall_by_eval.
  - Q_by_eval.
  - Q_by_eval.
  - Q_by_eval.
Defined.

(** One second of a loud tone and one second of silence at 16 kHz. *)
Definition loud_second : list Z := repeat 1000%Z 16000.
Definition silent_second : list Z := repeat 0%Z 16000.

(** C1 counterexample.  (1) With the defaults ([N = 4.6875]), one loud
    frame and seven silent frames: [add_chunk] returns true on the fifth,
    sixth and seventh silent frame, three times in all.  (2) With one-second
    chunks ([N = 0.3]), three loud chunks and one silent chunk: true once,
    but 48000 samples were appended while recording and [get_audio_data]
    returns only the last 32000. *)
Lemma utterance_completes_once_counterexample :
  silence_threshold default_config * 3 < chunk_rms sqrt_floor loud_frame /\
  chunk_rms sqrt_floor zero_frame <= silence_threshold default_config * (1 # 2) /\
  frames_for default_config (silence_duration default_config) <= 7 /\
  snd (process_frames sqrt_floor fresh_AudioBuffer default_config
         (loud_frame :: repeat zero_frame 7))
    = [false; false; false; false; false; true; true; true] /\
  silence_threshold second_chunk_config * 3 < chunk_rms sqrt_floor loud_second /\
  chunk_rms sqrt_floor silent_second
    <= silence_threshold second_chunk_config * (1 # 2) /\
  frames_for second_chunk_config (silence_duration second_chunk_config) <= 1 /\
  snd (process_frames sqrt_floor fresh_AudioBuffer second_chunk_config
         (repeat loud_second 3 ++ [silent_second]))
    = [false; false; false; true] /\
  Z.of_nat (length (concat (repeat loud_second 3))) = 48000%Z /\
  Z.of_nat (length (fst (get_audio_data (fst (process_frames sqrt_floor
            fresh_AudioBuffer second_chunk_config
            (repeat loud_second 3 ++ [silent_second]))))))
    = 32000%Z.
Proof.
  repeat match goal with |- _ /\ _ => split end; Q_by_eval.
Qed.

(** * The coordinator *)

Lemma max_recording_guard_true (s : AudioBuffer) chunk cfg :
  snd (max_recording_guard s chunk cfg) = true ->
  is_recording s = true /\
  speech_detected (fst (max_recording_guard s chunk cfg)) = speech_detected s /\
  is_recording (fst (max_recording_guard s chunk cfg)) = false /\
  buffer (fst (max_recording_guard s chunk cfg)) = buffer s.
Proof.
  unfold max_recording_guard. destruct (is_recording s) eqn:R; [|discriminate].
  destruct (Qltb _ _); [|discriminate]. intros _. repeat split.
Qed.

(** When [add_chunk] reports a completed utterance, the completing frame is
    not appended, speech stays detected and recording has stopped. *)
Lemma add_chunk_completed (sqrt : Q -> Q) (s : AudioBuffer) chunk cfg :
  implb (is_recording s) (speech_detected s) = true ->
  snd (add_chunk sqrt s chunk cfg) = true ->
  speech_detected (fst (add_chunk sqrt s chunk cfg)) = true /\
  is_recording (fst (add_chunk sqrt s chunk cfg)) = false /\
  buffer (fst (add_chunk sqrt s chunk cfg)) = buffer s.
Proof.
  intro Hinv. unfold add_chunk. cbv zeta.
  match goal with |- context [adaptive_thresholds cfg ?b] =>
    destruct (adaptive_thresholds cfg b) as [sp si];
    set (s0 := set_recent s (lastn 10 (recent_rms s ++ [chunk_rms sqrt chunk])) b)
  end.
  assert (H0 : implb (is_recording s0) (speech_detected s0) = true) by exact Hinv.
  assert (Hb0 : buffer s0 = buffer s) by reflexivity.
  destruct (negb (speech_detected s0) && Qltb sp (chunk_rms sqrt chunk)).
  { intro Hc. destruct (max_recording_guard_true _ _ _ Hc) as [_ [A [B C]]].
    rewrite A, B, C. repeat split. }
  destruct (speech_detected s0 && Qle_bool (chunk_rms sqrt chunk) si) eqn:B2.
  { apply andb_prop in B2. destruct B2 as [Hsd _].
    destruct (Qltb _ _).
    - intros _. repeat split; assumption.
    - intro Hc. destruct (max_recording_guard_true _ _ _ Hc) as [_ [A [B C]]].
      rewrite A, B, C. repeat split; assumption. }
  destruct (speech_detected s0 && Qltb si (chunk_rms sqrt chunk)) eqn:B3.
  { apply andb_prop in B3. destruct B3 as [Hsd _].
    intro Hc. destruct (max_recording_guard_true _ _ _ Hc) as [_ [A [B C]]].
    rewrite A, B, C. repeat split; assumption. }
  intro Hc. destruct (max_recording_guard_true _ _ _ Hc) as [R [A [B C]]].
  rewrite R in H0. rewrite A, B, C. split; [|split; [reflexivity|assumption]].
  destruct (speech_detected s0); [reflexivity|discriminate].
Qed.

(** After a completion and before retrieval, frames change nothing in the
    accumulator: speech stays detected and recording stays off. *)
Lemma add_chunk_after_completion (sqrt : Q -> Q) (s : AudioBuffer) chunk cfg :
  speech_detected s = true -> is_recording s = false ->
  speech_detected (fst (add_chunk sqrt s chunk cfg)) = true /\
  is_recording (fst (add_chunk sqrt s chunk cfg)) = false /\
  buffer (fst (add_chunk sqrt s chunk cfg)) = buffer s.
Proof.
  intros Hsd Hir. destruct s as [ml b ir sc sd rr bg rc].
  cbn in Hsd, Hir. subst sd ir.
  unfold add_chunk. cbv zeta. cbn [speech_detected set_recent negb andb].
  match goal with |- context [adaptive_thresholds cfg ?c] =>
    destruct (adaptive_thresholds cfg c) as [sp si] end.
  cbn [speech_detected negb andb]. unfold max_recording_guard.
  cbn [is_recording set_recent set_silence_counter].
  destruct (Qle_bool (chunk_rms sqrt chunk) si).
  - destruct (Qltb _ _); cbn; repeat split.
  - destruct (Qltb si (chunk_rms sqrt chunk)); cbn; repeat split.
Qed.

Lemma process_frames_after_completion (sqrt : Q -> Q) (cfg : AudioConfig)
    (frames : list (list Z)) :
  forall s, speech_detected s = true -> is_recording s = false ->
  buffer (fst (process_frames sqrt s cfg frames)) = buffer s.
Proof.
  induction frames as [|f fs IH]; intros s Hsd Hir; [reflexivity|].
  rewrite process_frames_cons.
  destruct (add_chunk_after_completion sqrt s f cfg Hsd Hir) as [A [B C]].
  destruct (add_chunk sqrt s f cfg) as [s1 b]. cbn [fst] in *.
  specialize (IH s1 A B).
  destruct (process_frames sqrt s1 cfg fs) as [s2 bs]. cbn [fst] in *.
  rewrite IH. exact C.
Qed.

Lemma get_audio_data_fst (s : AudioBuffer) :
  fst (get_audio_data s) = buffer s.
Proof. unfold get_audio_data. destruct (buffer s); reflexivity. Qed.

(** A run of the coordinator: one utterance is taken by thread 0, and a
    second one completes while thread 0 is still transcribing. *)
Definition busy_trace_prefix : list event :=
  [EFrame loud_frame] ++ repeat (EFrame zero_frame) 5 ++
  [EWorker 0; EWorker 0; EFrame loud_frame2] ++ repeat (EFrame zero_frame) 4.

Definition busy_state : JarvisSTT :=
  run sqrt_floor default_config listening_JarvisSTT busy_trace_prefix.

(** Thread 0 finishes, one more silent frame arrives and thread 1 runs. *)
Definition busy_trace_rest : list event :=
  [EWorker 0; EFrame zero_frame; EWorker 1; EWorker 1; EWorker 1].

(** C4 (amended). In continuous mode, when [add_chunk] signals a completed
    utterance while [is_processing] is true, [_audio_callback] starts no
    thread and leaves [is_processing] and the transcriptions unchanged; but
    the utterance is not discarded: its samples stay in the buffer,
    unchanged by any later frames, and the next [get_audio_data] returns
    them (so the next transcription thread transcribes them). *)
Theorem busy_completion_keeps_utterance (sqrt : Q -> Q) (cfg : AudioConfig)
    (st : JarvisSTT) (chunk : list Z)
    (Hl : is_listening st = true) (Hp : is_processing st = true)
    (Hinv : implb (is_recording (audio_buffer st))
                  (speech_detected (audio_buffer st)) = true)
    (Hc : snd (add_chunk sqrt (audio_buffer st) chunk cfg) = true) :
  workers (audio_callback sqrt cfg st chunk) = workers st /\
  transcribed (audio_callback sqrt cfg st chunk) = transcribed st /\
  is_processing (audio_callback sqrt cfg st chunk) = true /\
  buffer (audio_buffer (audio_callback sqrt cfg st chunk))
    = buffer (audio_buffer st) /\
  (forall frames,
      fst (get_audio_data (fst (process_frames sqrt
             (audio_buffer (audio_callback sqrt cfg st chunk)) cfg frames)))
      = buffer (audio_buffer st)).
Proof.
  destruct (add_chunk_completed sqrt (audio_buffer st) chunk cfg Hinv Hc)
    as [Hsd [Hir Hbuf]].
  unfold audio_callback. rewrite Hl. cbn [negb].
  destruct (add_chunk sqrt (audio_buffer st) chunk cfg) as [b u] eqn:E.
  cbn [snd fst] in Hc, Hsd, Hir, Hbuf. subst u. cbn [is_processing].
  rewrite Hp. cbn. repeat split; try assumption.
  intro frames. rewrite get_audio_data_fst.
  rewrite (process_frames_after_completion sqrt cfg frames b Hsd Hir).
  exact Hbuf.
Qed.

Lemma busy_completion_keeps_utterance_witness :
  is_processing busy_state = true /\
  snd (add_chunk sqrt_floor (audio_buffer busy_state) zero_frame
         default_config) = true /\
  buffer (audio_buffer (audio_callback sqrt_floor default_config busy_state
                          zero_frame))
    = buffer (audio_buffer busy_state).
Proof.
  split; [vm_compute; reflexivity|].
  split; [vm_compute; reflexivity|].
  destruct (busy_completion_keeps_utterance sqrt_floor default_config
              busy_state zero_frame ltac:(vm_compute; reflexivity)
              ltac:(vm_compute; reflexivity) ltac:(vm_compute; reflexivity)
              ltac:(vm_compute; reflexivity)) as [_ [_ [_ [H _]]]].
  exact H.
Defined.

(** C4 counterexample. The second utterance of the run completes while
    thread 0 is transcribing: no thread is started for it, but its samples
    [loud_frame2 ++ 0^8] are transcribed afterwards, by thread 1, which the
    next silent frame starts. *)
Lemma busy_utterance_transcribed_later :
  is_processing busy_state = true /\
  snd (add_chunk sqrt_floor (audio_buffer busy_state) zero_frame
         default_config) = true /\
  workers (audio_callback sqrt_floor default_config busy_state zero_frame)
    = workers busy_state /\
  buffer (audio_buffer (audio_callback sqrt_floor default_config busy_state
                          zero_frame)) = loud_frame2 ++ repeat 0%Z 8 /\
  transcribed (run sqrt_floor default_config busy_state
                 (EFrame zero_frame :: busy_trace_rest))
    = [loud_frame ++ repeat 0%Z 8; loud_frame2 ++ repeat 0%Z 8].
Proof.
  repeat match goal with |- _ /\ _ => split end; vm_compute; reflexivity.
Qed.

(** * The wake-word detector *)

Lemma str_lower_empty (s : string) :
  str_lower s = EmptyString <-> s = EmptyString.
Proof. destruct s; cbn; split; congruence. Qed.

Lemma str_contains_empty_text (w : string) :
  w <> EmptyString -> str_contains w EmptyString = false.
Proof. destruct w; [congruence|reflexivity]. Qed.

Lemma find_none_existsb {A} (f : A -> bool) (l : list A) :
  find f l = None -> existsb f l = false.
Proof.
  induction l as [|a l IH]; cbn; [reflexivity|].
  destruct (f a); [discriminate|exact IH].
Qed.

Lemma find_some_existsb {A} (f : A -> bool) (l : list A) (x : A) :
  find f l = Some x -> existsb f l = true.
Proof.
  induction l as [|a l IH]; cbn; [discriminate|].
  destruct (f a); [reflexivity|exact IH].
Qed.

Lemma existsb_map' {A B} (f : B -> bool) (g : A -> B) (l : list A) :
  existsb f (map g l) = existsb (fun x => f (g x)) l.
Proof. induction l as [|a l IH]; cbn; [reflexivity|]. rewrite IH. reflexivity. Qed.

Lemma detect_nonempty (d : WakeWordDetector) (t : Q) (text : string) :
  text <> EmptyString ->
  detect d t text =
    if Qltb (t - last_detection d) (cooldown d) then (d, false)
    else match find (fun w => str_contains w (str_lower text)) (wake_words d) with
         | Some _ => (mkWakeWordDetector (wake_words d) t (cooldown d), true)
         | None => (d, false)
         end.
Proof. destruct text; [congruence|reflexivity]. Qed.

(** A call either changes nothing and returns false, or records its time
    and returns true, outside the cooldown. *)
Lemma detect_step (d : WakeWordDetector) (t : Q) (text : string) :
  detect d t text = (d, false) \/
  (detect d t text = (mkWakeWordDetector (wake_words d) t (cooldown d), true) /\
   last_detection d + cooldown d <= t).
Proof.
  destruct (string_dec text EmptyString) as [->|Hne]; [left; reflexivity|].
  rewrite (detect_nonempty d t text Hne).
  destruct (Qltb (t - last_detection d) (cooldown d)) eqn:Q; [left; reflexivity|].
  apply Qltb_false_iff in Q.
  destruct (find _ _); [right; split; [reflexivity|lra]|left; reflexivity].
Qed.

Lemma detect_all_cons (d : WakeWordDetector) (t : Q) (txt : string) cs :
  snd (detect_all d ((t, txt) :: cs))
  = snd (detect d t txt) :: snd (detect_all (fst (detect d t txt)) cs).
Proof.
  cbn [detect_all]. destruct (detect d t txt) as [d1 b]. cbn [fst snd].
  destruct (detect_all d1 cs) as [d2 bs]. reflexivity.
Qed.

(** Every later success is at least one cooldown after the recorded one. *)
Lemma detect_all_after (calls : list (Q * string)) :
  forall d, cooldown d = 2 ->
  forall j tj, nth_error (snd (detect_all d calls)) j = Some true ->
  nth_error (map fst calls) j = Some tj ->
  last_detection d + 2 <= tj.
Proof.
  induction calls as [|[t txt] cs IH]; intros d Hc j tj Hj Ht.
  - destruct j; discriminate.
  - rewrite detect_all_cons in Hj.
    destruct (detect_step d t txt) as [E|[E Hle]]; rewrite E in Hj;
      cbn [fst snd] in Hj; try rewrite Hc in Hle.
    + destruct j as [|j]; [discriminate|]. cbn [nth_error map] in Hj, Ht.
      exact (IH d Hc j tj Hj Ht).
    + destruct j as [|j].
      * cbn in Ht. injection Ht as <-. exact Hle.
      * cbn [nth_error map] in Hj, Ht. specialize (IH (mkWakeWordDetector (wake_words d) t (cooldown d)) Hc j tj Hj Ht). cbn [last_detection] in IH. lra.
Qed.

Lemma detect_all_spaced (calls : list (Q * string)) :
  forall d, cooldown d = 2 ->
  forall i j ti tj, (i < j)%nat ->
  nth_error (snd (detect_all d calls)) i = Some true ->
  nth_error (snd (detect_all d calls)) j = Some true ->
  nth_error (map fst calls) i = Some ti ->
  nth_error (map fst calls) j = Some tj ->
  2 <= tj - ti.
Proof.
  induction calls as [|[t txt] cs IH]; intros d Hc i j ti tj Hij Hi Hj Hti Htj.
  - destruct i; discriminate.
  - rewrite detect_all_cons in Hi, Hj.
    destruct j as [|j]; [lia|]. cbn [nth_error map] in Hj, Htj.
    destruct (detect_step d t txt) as [E|[E Hle]]; rewrite E in Hi, Hj;
      cbn [fst snd] in Hi, Hj.
    + destruct i as [|i]; [discriminate|]. cbn [nth_error map] in Hi, Hti.
      apply (IH d Hc i j ti tj); auto; lia.
    + destruct i as [|i].
      * cbn in Hti. injection Hti as <-.
        assert (A := detect_all_after cs (mkWakeWordDetector (wake_words d) t (cooldown d)) Hc j tj Hj Htj).
        cbn [last_detection] in A. lra.
      * cbn [nth_error map] in Hi, Hti. apply (IH (mkWakeWordDetector (wake_words d) t (cooldown d)) Hc i j ti tj); auto; lia.
Qed.

(** C7. For non-empty wake phrases [ws], a detector holding them lower-cased
    answers a call by: not within the cooldown of the last recorded match,
    and some phrase, lower-cased, is a substring of the lower-cased text;
    on a match it records the current time (otherwise it is unchanged).
    The answer depends on the text only through its lower-cased form. The
    cooldown of a new detector is 2, and over any sequence of calls on a new
    detector two calls that return true are at least 2 seconds apart. *)
Theorem detect_spec (ws : list string)
    (Hws : Forall (fun w => w <> EmptyString) ws) :
  (forall d t text, wake_words d = map str_lower ws ->
     detect d t text =
       if negb (Qltb (t - last_detection d) (cooldown d)) &&
          existsb (fun w => str_contains (str_lower w) (str_lower text)) ws
       then (mkWakeWordDetector (wake_words d) t (cooldown d), true)
       else (d, false)) /\
  (forall d t text1 text2, str_lower text1 = str_lower text2 ->
     detect d t text1 = detect d t text2) /\
  cooldown (new_WakeWordDetector ws) = 2 /\
  (forall calls i j ti tj, (i < j)%nat ->
     nth_error (snd (detect_all (new_WakeWordDetector ws) calls)) i = Some true ->
     nth_error (snd (detect_all (new_WakeWordDetector ws) calls)) j = Some true ->
     nth_error (map fst calls) i = Some ti ->
     nth_error (map fst calls) j = Some tj ->
     2 <= tj - ti).
Proof.
  split; [|split; [|split]].
  - intros d t text Hd.
    destruct (string_dec text EmptyString) as [->|Hne].
    + replace (existsb _ ws) with false; [rewrite andb_false_r; reflexivity|].
      symmetry. destruct (existsb _ ws) eqn:Ex; [|reflexivity].
      apply existsb_exists in Ex. destruct Ex as [w [Hw Hc]].
      rewrite Forall_forall in Hws.
      change (str_lower EmptyString) with EmptyString in Hc.
      rewrite str_contains_empty_text in Hc; [discriminate|].
      intro E. exact (Hws w Hw (proj1 (str_lower_empty w) E)).
    + rewrite (detect_nonempty d t text Hne).
      destruct (Qltb (t - last_detection d) (cooldown d)); [reflexivity|].
      cbn [negb andb].
      rewrite <- (existsb_map' (fun w => str_contains w (str_lower text)) str_lower ws), <- Hd.
      destruct (find _ _) eqn:F.
      * rewrite (find_some_existsb _ _ _ F). reflexivity.
      * rewrite (find_none_existsb _ _ F). reflexivity.
  - intros d t text1 text2 E.
    destruct (string_dec text1 EmptyString) as [->|H1].
    + cbn in E. symmetry in E. apply (proj1 (str_lower_empty text2)) in E.
      subst. reflexivity.
    + assert (H2 : text2 <> EmptyString).
      { intro H. subst. apply H1, str_lower_empty. exact E. }
      rewrite (detect_nonempty d t text1 H1), (detect_nonempty d t text2 H2), E.
      reflexivity.
  - reflexivity.
  - intros calls. apply detect_all_spaced. reflexivity.
Qed.

Lemma detect_spec_witness :
  Forall (fun w => w <> EmptyString) ["Jarvis"%string] /\
  detect (new_WakeWordDetector ["Jarvis"%string]) 5 "Hey JARVIS"%string
    = (mkWakeWordDetector ["jarvis"%string] 5 2, true).
Proof.
  assert (Hws : Forall (fun w => w <> EmptyString) ["Jarvis"%string])
    by (constructor; [discriminate|constructor]).
  split; [exact Hws|].
  destruct (detect_spec ["Jarvis"%string] Hws) as [H _].
  rewrite H by reflexivity. vm_compute. reflexivity.
Defined.

(** * Invariants of the buffer *)

(** The operations of a run whose [add_chunk] calls all get [cfg]
    ([self.config] in [JarvisSTT]). *)
Definition op_uses (cfg : AudioConfig) (op : buffer_op) : Prop :=
  match op with
  | OpAddChunk _ c => c = cfg
  | OpGetAudioData => True
  end.

Ltac add_chunk_split s :=
  destruct s as [ml b ir sc sd rr bg rc]; destruct ir, sd;
  unfold add_chunk, max_recording_guard; cbv zeta;
  match goal with |- context [adaptive_thresholds ?c ?x] =>
    destruct (adaptive_thresholds c x) as [sp si] end;
  cbn [set_recent start_recording set_silence_counter set_is_recording
       set_recording_chunks set_buffer speech_detected is_recording buffer
       maxlen recording_chunks silence_counter recent_rms background_rms
       negb andb fst snd] in *;
  repeat match goal with |- context [if ?c then _ else _] =>
    let E := fresh "E" in destruct c eqn:E end;
  cbn [set_recent start_recording set_silence_counter set_is_recording
       set_recording_chunks set_buffer speech_detected is_recording buffer
       maxlen recording_chunks silence_counter recent_rms background_rms
       negb andb fst snd] in *.

Lemma add_chunk_buffer (sqrt : Q -> Q) (s : AudioBuffer) chunk cfg :
  buffer (fst (add_chunk sqrt s chunk cfg)) =
  if is_recording (fst (add_chunk sqrt s chunk cfg))
  then deque_extend (maxlen s) (buffer s) chunk else buffer s.
Proof. add_chunk_split s; try discriminate; reflexivity. Qed.

Lemma add_chunk_history (sqrt : Q -> Q) (s : AudioBuffer) chunk cfg :
  maxlen (fst (add_chunk sqrt s chunk cfg)) = maxlen s /\
  recent_rms (fst (add_chunk sqrt s chunk cfg))
    = lastn 10 (recent_rms s ++ [chunk_rms sqrt chunk]) /\
  background_rms (fst (add_chunk sqrt s chunk cfg))
    = if negb (speech_detected s) &&
         (5 <=? length (lastn 10 (recent_rms s ++ [chunk_rms sqrt chunk])))%nat
      then np_mean (lastn 10 (recent_rms s ++ [chunk_rms sqrt chunk]))
      else background_rms s.
Proof. add_chunk_split s; try discriminate; auto. Qed.

Lemma add_chunk_stops (sqrt : Q -> Q) (s : AudioBuffer) chunk cfg :
  snd (add_chunk sqrt s chunk cfg) = true ->
  is_recording (fst (add_chunk sqrt s chunk cfg)) = false.
Proof. add_chunk_split s; try discriminate; auto. Qed.

Definition idle_empty (s : AudioBuffer) : Prop :=
  speech_detected s = false -> buffer s = [] /\ is_recording s = false.

Lemma add_chunk_idle_empty (sqrt : Q -> Q) (s : AudioBuffer) chunk cfg :
  idle_empty s -> idle_empty (fst (add_chunk sqrt s chunk cfg)).
Proof.
  unfold idle_empty. add_chunk_split s; intros H H'; try discriminate;
    try (destruct (H eq_refl); discriminate); auto.
Qed.

Definition recording_bounds (cfg : AudioConfig) (s : AudioBuffer) : Prop :=
  is_recording s = true ->
  (1 <= recording_chunks s)%Z /\
  inject_Z (recording_chunks s) <= frames_for cfg (max_recording_time cfg) /\
  inject_Z (silence_counter s) <= frames_for cfg (silence_duration cfg).

Lemma add_chunk_recording_bounds (sqrt : Q -> Q) (s : AudioBuffer) chunk cfg :
  0 <= frames_for cfg (silence_duration cfg) ->
  implb (is_recording s) (speech_detected s) = true ->
  recording_bounds cfg s ->
  recording_bounds cfg (fst (add_chunk sqrt s chunk cfg)).
Proof.
  unfold recording_bounds. intros HN.
  add_chunk_split s; intros Hi H H'; try discriminate;
  repeat match goal with
  | E : Qltb _ _ = false |- _ => apply Qltb_false_iff in E
  end.
  all: try specialize (H eq_refl).
  all: repeat split; try lia; try assumption;
    try (destruct H as [? [? ?]]; first [lia | assumption]).
Qed.

(** With a maximum recording time below one chunk, every onset is forced
    to complete at once: nothing is ever appended. *)
Lemma add_chunk_short_max (sqrt : Q -> Q) (s : AudioBuffer) chunk cfg :
  frames_for cfg (max_recording_time cfg) < 1 ->
  buffer s = [] -> is_recording s = false ->
  buffer (fst (add_chunk sqrt s chunk cfg)) = [] /\
  is_recording (fst (add_chunk sqrt s chunk cfg)) = false.
Proof.
  intro HM. add_chunk_split s; intros Hb Hi; try discriminate;
  repeat match goal with
  | E : Qltb _ _ = false |- _ => apply Qltb_false_iff in E
  end; auto.
  all: exfalso; match goal with E : inject_Z ?z <= _ |- _ =>
    assert (inject_Z z == 1) by reflexivity end; lra.
Qed.

Lemma apply_ops_invariant (P : AudioBuffer -> Prop) (sqrt : Q -> Q)
    (ops : list buffer_op) :
  (forall s c cfg, In (OpAddChunk c cfg) ops -> P s ->
     P (fst (add_chunk sqrt s c cfg))) ->
  (forall s, P s -> P (snd (get_audio_data s))) ->
  forall s, P s -> P (fold_left (apply_op sqrt) ops s).
Proof.
  induction ops as [|op ops IH]; intros Hadd Hget s Hs; [exact Hs|].
  cbn [fold_left]. apply IH.
  - intros t c cfg Hin. apply Hadd. right. exact Hin.
  - exact Hget.
  - destruct op as [c cfg|]; cbn [apply_op].
    + apply Hadd; [left; reflexivity|exact Hs].
    + apply Hget. exact Hs.
Qed.

Lemma np_mean_nonneg (l : list Q) : Forall (Qle 0) l -> 0 <= np_mean l.
Proof.
  intro H. unfold np_mean. rewrite Qred_correct.
  apply Qmult_le_0_compat; [apply Qsum_nonneg; exact H|].
  apply Qinv_le_0_compat. change 0 with (inject_Z 0).
  rewrite <- Zle_Qle. lia.
Qed.

Lemma chunk_rms_nonneg (sqrt : Q -> Q)
    (Hsqrt : forall q, 0 <= q -> 0 <= sqrt q) (chunk : list Z) :
  0 <= chunk_rms sqrt chunk.
Proof.
  unfold chunk_rms. destruct (length chunk =? 0)%nat; [lra|].
  destruct (mean_square_nonneg chunk) as [q [E Hq]].
  unfold rms_of_mean_square. rewrite E. cbn [np_isnan].
  destruct (Qltb q 0); [lra|]. apply Hsqrt. exact Hq.
Qed.

Lemma get_audio_data_state (s : AudioBuffer) :
  snd (get_audio_data s) = s \/
  snd (get_audio_data s) =
    mkAudioBuffer (maxlen s) [] false 0 false (recent_rms s) (background_rms s) 0.
Proof. unfold get_audio_data. destruct (buffer s); [left|right]; reflexivity. Qed.

Ltac get_audio_data_cases s :=
  destruct (get_audio_data_state s) as [-> | ->]; cbn.

(** In any reachable state, when [speech_detected] is false the buffer is
    empty and nothing is being recorded: every utterance starts from an
    empty buffer. *)
Theorem idle_buffer_empty (sqrt : Q -> Q) (max_size : nat)
    (ops : list buffer_op)
    (Hidle : speech_detected
               (fold_left (apply_op sqrt) ops (new_AudioBuffer max_size)) = false) :
  buffer (fold_left (apply_op sqrt) ops (new_AudioBuffer max_size)) = [] /\
  is_recording (fold_left (apply_op sqrt) ops (new_AudioBuffer max_size)) = false.
Proof.
  revert Hidle. apply (apply_ops_invariant idle_empty).
  - intros s c cfg _. apply add_chunk_idle_empty.
  - intros s H. unfold idle_empty in *. get_audio_data_cases s; auto.
  - intros _. split; reflexivity.
Qed.

Lemma idle_buffer_empty_witness :
  speech_detected (fold_left (apply_op sqrt_floor)
    [OpAddChunk loud_frame default_config; OpGetAudioData]
    (new_AudioBuffer 8)) = false /\
  buffer (fold_left (apply_op sqrt_floor)
    [OpAddChunk loud_frame default_config; OpGetAudioData]
    (new_AudioBuffer 8)) = [].
Proof.
  assert (H : speech_detected (fold_left (apply_op sqrt_floor)
    [OpAddChunk loud_frame default_config; OpGetAudioData]
    (new_AudioBuffer 8)) = false) by (vm_compute; reflexivity).
  split; [exact H|].
  exact (proj1 (idle_buffer_empty sqrt_floor 8 _ H)).
Defined.

(** While a reachable state is recording (all calls with the same
    configuration, whose silence bound is non-negative), at least one and at
    most [max_recording_time * sample_rate / chunk_size] chunks have been
    counted, and the silence counter is within
    [silence_duration * sample_rate / chunk_size]. *)
Theorem recording_counters_bounded (sqrt : Q -> Q) (cfg : AudioConfig)
    (HN : 0 <= frames_for cfg (silence_duration cfg))
    (max_size : nat) (ops : list buffer_op)
    (Hops : Forall (op_uses cfg) ops)
    (Hrec : is_recording
              (fold_left (apply_op sqrt) ops (new_AudioBuffer max_size)) = true) :
  (1 <= recording_chunks
          (fold_left (apply_op sqrt) ops (new_AudioBuffer max_size)))%Z /\
  inject_Z (recording_chunks
              (fold_left (apply_op sqrt) ops (new_AudioBuffer max_size)))
    <= frames_for cfg (max_recording_time cfg) /\
  inject_Z (silence_counter
              (fold_left (apply_op sqrt) ops (new_AudioBuffer max_size)))
    <= frames_for cfg (silence_duration cfg).
Proof.
  revert Hrec.
  enough (G : implb (is_recording (fold_left (apply_op sqrt) ops
                                     (new_AudioBuffer max_size)))
                    (speech_detected (fold_left (apply_op sqrt) ops
                                        (new_AudioBuffer max_size))) = true /\
              recording_bounds cfg (fold_left (apply_op sqrt) ops
                                      (new_AudioBuffer max_size)))
    by exact (proj2 G).
  apply (apply_ops_invariant
           (fun s => implb (is_recording s) (speech_detected s) = true /\
                     recording_bounds cfg s)).
  - intros s c cfg' Hin [Hi Hb].
    rewrite Forall_forall in Hops. specialize (Hops _ Hin). cbn in Hops.
    subst cfg'. split.
    + apply add_chunk_recording_speech. exact Hi.
    + apply add_chunk_recording_bounds; assumption.
  - intros s [Hi Hb]. unfold recording_bounds in *.
    get_audio_data_cases s; [split; assumption|].
    split; [reflexivity|discriminate].
  - split; [reflexivity|discriminate].
Qed.

Lemma recording_counters_bounded_witness :
  is_recording (fold_left (apply_op sqrt_floor)
    [OpAddChunk loud_frame default_config] (new_AudioBuffer 8)) = true /\
  inject_Z (recording_chunks (fold_left (apply_op sqrt_floor)
    [OpAddChunk loud_frame default_config] (new_AudioBuffer 8)))
    <= frames_for default_config (max_recording_time default_config).
Proof.
  assert (H : is_recording (fold_left (apply_op sqrt_floor)
    [OpAddChunk loud_frame default_config] (new_AudioBuffer 8)) = true)
    by (vm_compute; reflexivity).
  split; [exact H|].
  refine (proj1 (proj2 (recording_counters_bounded sqrt_floor default_config
            _ 8 _ _ H))).
  - apply Qle_bool_imp_le. vm_compute. reflexivity.
  - constructor; [reflexivity|constructor].
Defined.

(** With an [np.sqrt] that is non-negative on non-negative arguments, every
    tracked RMS value and the background estimate of a reachable state are
    non-negative. *)
Theorem rms_history_nonneg (sqrt : Q -> Q)
    (Hsqrt : forall q, 0 <= q -> 0 <= sqrt q)
    (max_size : nat) (ops : list buffer_op) :
  Forall (Qle 0)
    (recent_rms (fold_left (apply_op sqrt) ops (new_AudioBuffer max_size))) /\
  0 <= background_rms (fold_left (apply_op sqrt) ops (new_AudioBuffer max_size)).
Proof.
  apply (apply_ops_invariant
           (fun s => Forall (Qle 0) (recent_rms s) /\ 0 <= background_rms s)).
  - intros s c cfg _ [Hr Hb].
    destruct (add_chunk_history sqrt s c cfg) as [_ [Hr' Hb']].
    assert (Hl : Forall (Qle 0) (lastn 10 (recent_rms s ++ [chunk_rms sqrt c]))).
    { apply Forall_skipn. apply Forall_app. split; [exact Hr|].
      constructor; [apply chunk_rms_nonneg; exact Hsqrt|constructor]. }
    rewrite Hr', Hb'. split; [exact Hl|].
    destruct (_ && _); [apply np_mean_nonneg; exact Hl|exact Hb].
  - intros s H. get_audio_data_cases s; exact H.
  - split; [constructor|apply Qle_refl].
Qed.

Lemma rms_history_nonneg_witness :
  Forall (Qle 0) (recent_rms (fold_left (apply_op sqrt_floor)
    [OpAddChunk loud_frame default_config; OpAddChunk zero_frame default_config]
    (new_AudioBuffer 8))).
Proof.
  refine (proj1 (rms_history_nonneg sqrt_floor _ 8 _)).
  intros q _. unfold sqrt_floor, Qle. cbn [Qnum Qden].
  pose proof (Z.sqrt_nonneg (Qnum q * Z.pos (Qden q))). lia.
Defined.

(** [add_chunk] appends the whole chunk to the buffer (dropping the oldest
    samples beyond [maxlen]) exactly when recording is still on after the
    call, and leaves the buffer unchanged otherwise; a call that reports a
    complete utterance has stopped recording and appended nothing. *)
Theorem add_chunk_append_rule (sqrt : Q -> Q) (s : AudioBuffer)
    (chunk : list Z) (cfg : AudioConfig) :
  buffer (fst (add_chunk sqrt s chunk cfg)) =
    (if is_recording (fst (add_chunk sqrt s chunk cfg))
     then deque_extend (maxlen s) (buffer s) chunk else buffer s) /\
  (snd (add_chunk sqrt s chunk cfg) = true ->
   is_recording (fst (add_chunk sqrt s chunk cfg)) = false /\
   buffer (fst (add_chunk sqrt s chunk cfg)) = buffer s).
Proof.
  split; [apply add_chunk_buffer|].
  intro Hc. pose proof (add_chunk_stops sqrt s chunk cfg Hc) as Hs.
  split; [exact Hs|]. rewrite add_chunk_buffer, Hs. reflexivity.
Qed.

(** If [max_recording_time * sample_rate / chunk_size < 1], no sample is
    ever buffered: every reachable state (all calls with that configuration)
    has an empty buffer and is not recording. *)
Theorem short_max_never_buffers (sqrt : Q -> Q) (cfg : AudioConfig)
    (HM : frames_for cfg (max_recording_time cfg) < 1)
    (max_size : nat) (ops : list buffer_op)
    (Hops : Forall (op_uses cfg) ops) :
  buffer (fold_left (apply_op sqrt) ops (new_AudioBuffer max_size)) = [] /\
  is_recording (fold_left (apply_op sqrt) ops (new_AudioBuffer max_size)) = false.
Proof.
  apply (apply_ops_invariant
           (fun s => buffer s = [] /\ is_recording s = false)).
  - intros s c cfg' Hin [Hb Hi].
    rewrite Forall_forall in Hops. specialize (Hops _ Hin). cbn in Hops.
    subst cfg'. apply add_chunk_short_max; assumption.
  - intros s H. get_audio_data_cases s; [exact H|split; reflexivity].
  - split; reflexivity.
Qed.

Lemma short_max_never_buffers_witness :
  buffer (fold_left (apply_op sqrt_floor)
    [OpAddChunk loud_frame short_max_config; OpAddChunk loud_frame2 short_max_config]
    (new_AudioBuffer 8)) = [].
Proof.
  refine (proj1 (short_max_never_buffers sqrt_floor short_max_config _ 8 _ _)).
  - apply Qltb_true_iff. vm_compute. reflexivity.
  - repeat constructor.
Defined.

(** * JarvisSTT.listen_and_transcribe *)

(** [str.isspace] on one character (code points up to 255). *)
Definition py_isspace (c : ascii) : bool :=
  let n := nat_of_ascii c in
  ((9 <=? n) && (n <=? 13)) || ((28 <=? n) && (n <=? 32)) ||
  (n =? 133) || (n =? 160).

Fixpoint py_lstrip (s : string) : string :=
  match s with
  | EmptyString => EmptyString
  | String c r => if py_isspace c then py_lstrip r else s
  end.

Fixpoint py_rstrip (s : string) : string :=
  match s with
  | EmptyString => EmptyString
  | String c r =>
      match py_rstrip r with
      | EmptyString => if py_isspace c then EmptyString else String c EmptyString
      | r' => String c r'
      end
  end.

(** [str.strip()]. *)
Definition py_strip (s : string) : string := py_rstrip (py_lstrip s).

Section Listen.

Variable sqrt : Q -> Q.
Variable config : AudioConfig.
(** [self.stt_engine.transcribe(audio_data, self.config)]. *)
Variable transcribe : list Z -> string.

(** The [while] loop of [listen_and_transcribe]: [reads] are the outcomes
    of the [stream.read] calls made before the timeout, [None] for a read
    that raised (logged, then [continue]). *)
Fixpoint listen_loop (temp_buffer : AudioBuffer)
    (reads : list (option (list Z))) : string :=
  match reads with
  | [] => EmptyString
  | None :: rs => listen_loop temp_buffer rs
  | Some audio_chunk :: rs =>
      let '(b1, utterance_complete) := add_chunk sqrt temp_buffer audio_chunk config in
      if utterance_complete then
        let '(audio_data, _) := get_audio_data b1 in
        if (0 <? length audio_data)%nat then transcribe audio_data
        else EmptyString
      else listen_loop b1 rs
  end.

(** [listen_and_transcribe(timeout)] once the stream is open. *)
Definition listen_and_transcribe (reads : list (option (list Z))) : string :=
  let transcription := listen_loop fresh_AudioBuffer reads in
  match transcription with
  | EmptyString => EmptyString
  | _ => py_strip transcription
  end.

End Listen.

Lemma listen_loop_no_samples (sqrt : Q -> Q) (cfg : AudioConfig)
    (transcribe : list Z -> string)
    (Hstep : forall s chunk, buffer s = [] -> is_recording s = false ->
       buffer (fst (add_chunk sqrt s chunk cfg)) = [] /\
       is_recording (fst (add_chunk sqrt s chunk cfg)) = false) :
  forall reads s, buffer s = [] -> is_recording s = false ->
  listen_loop sqrt cfg transcribe s reads = EmptyString.
Proof.
  induction reads as [|[chunk|] rs IH]; intros s Hb Hi; cbn [listen_loop].
  - reflexivity.
  - destruct (Hstep s chunk Hb Hi) as [Hb' Hi'].
    destruct (add_chunk sqrt s chunk cfg) as [b1 u]. cbn [fst] in Hb', Hi'.
    destruct u; [|apply IH; assumption].
    unfold get_audio_data. rewrite Hb'. reflexivity.
  - apply IH; assumption.
Qed.

(** With [max_recording_time * sample_rate / chunk_size < 1],
    [listen_and_transcribe] returns the empty string whatever it reads and
    whatever the engine would transcribe: each detected onset completes
    with no sample buffered. *)
Theorem listen_short_max_empty (sqrt : Q -> Q) (cfg : AudioConfig)
    (HM : frames_for cfg (max_recording_time cfg) < 1)
    (transcribe : list Z -> string) (reads : list (option (list Z))) :
  listen_and_transcribe sqrt cfg transcribe reads = EmptyString.
Proof.
  unfold listen_and_transcribe.
  rewrite (listen_loop_no_samples sqrt cfg transcribe) by
    (try (intros; apply add_chunk_short_max; assumption); reflexivity).
  reflexivity.
Qed.

Lemma listen_short_max_empty_witness :
  listen_and_transcribe sqrt_floor short_max_config (fun _ => "hello"%string)
    [Some loud_frame; Some zero_frame; None; Some loud_frame2] = EmptyString.
Proof.
  apply listen_short_max_empty.
  apply Qltb_true_iff. vm_compute. reflexivity.
Defined.

(** When every chunk read is all zeros, [listen_and_transcribe] returns the
    empty string ([np.sqrt(0) = 0], non-negative configured threshold). *)
Theorem listen_silence_empty (sqrt : Q -> Q) (Hsqrt : sqrt 0 = 0)
    (cfg : AudioConfig) (Hthr : 0 <= silence_threshold cfg)
    (transcribe : list Z -> string) (reads : list (option (list Z)))
    (Hzero : Forall (fun r => match r with
                              | Some c => Forall (fun x => x = 0%Z) c
                              | None => True
                              end) reads) :
  listen_and_transcribe sqrt cfg transcribe reads = EmptyString.
Proof.
  unfold listen_and_transcribe.
  enough (G : forall s, quiet_state s ->
            listen_loop sqrt cfg transcribe s reads = EmptyString)
    by (rewrite G; [reflexivity|]; repeat split; constructor).
  induction Hzero as [|r rs Hr _ IH]; intros s Hq; cbn [listen_loop];
    [reflexivity|].
  destruct r as [chunk|]; [|apply IH; exact Hq].
  destruct (add_chunk_quiet sqrt Hsqrt cfg Hthr s chunk Hq Hr) as [Hf Hq'].
  destruct (add_chunk sqrt s chunk cfg) as [b1 u]. cbn in Hf, Hq'. subst u.
  apply IH. exact Hq'.
Qed.

Lemma listen_silence_empty_witness :
  listen_and_transcribe sqrt_floor default_config (fun _ => "hello"%string)
    [Some zero_frame; None; Some zero_frame] = EmptyString.
Proof.
  apply listen_silence_empty.
  - vm_compute. reflexivity.
  - apply Qle_bool_imp_le. vm_compute. reflexivity.
  - repeat constructor.
Defined.

(** * Invariants of the continuous-mode coordinator *)

Lemma nth_error_replace_nth {A : Type} (i j : nat) (x : A) (l : list A) :
  nth_error (replace_nth i x l) j =
  if Nat.eqb i j then option_map (fun _ => x) (nth_error l j)
  else nth_error l j.
Proof.
  revert i j. induction l as [|y r IH]; intros i j.
  - destruct i, j; cbn; try reflexivity. destruct (Nat.eqb i j); reflexivity.
  - destruct i as [|i], j as [|j]; cbn [replace_nth nth_error Nat.eqb];
      try reflexivity.
    apply IH.
Qed.

Lemma nth_error_snoc {A : Type} (l : list A) (x y : A) (i : nat) :
  nth_error (l ++ [x]) i = Some y -> nth_error l i = Some y \/ y = x.
Proof.
  intro H. destruct (Nat.lt_ge_cases i (length l)) as [Hi|Hi].
  - left. rewrite nth_error_app1 in H by exact Hi. exact H.
  - right. rewrite nth_error_app2 in H by exact Hi.
    destruct (i - length l)%nat as [|k]; cbn in H.
    + injection H as <-. reflexivity.
    + destruct k; discriminate.
Qed.

Lemma run_invariant (P : JarvisSTT -> Prop) (sqrt : Q -> Q) (cfg : AudioConfig)
    (Hstep : forall st e, P st -> P (step sqrt cfg st e)) :
  forall es st, P st -> P (run sqrt cfg st es).
Proof.
  induction es as [|e es IH]; intros st Hst; [exact Hst|].
  cbn [run fold_left]. apply IH. apply Hstep. exact Hst.
Qed.

Definition flag_backed (st : JarvisSTT) : Prop :=
  is_processing st = true ->
  exists i data, nth_error (workers st) i = Some (WTranscribing data).

Lemma step_flag_backed (sqrt : Q -> Q) (cfg : AudioConfig) (st : JarvisSTT)
    (e : event) :
  flag_backed st -> flag_backed (step sqrt cfg st e).
Proof.
  unfold flag_backed. intro H. destruct e as [chunk|i]; cbn [step].
  - unfold audio_callback. destruct (negb (is_listening st)); [exact H|].
    destruct (add_chunk sqrt (audio_buffer st) chunk cfg) as [b u].
    destruct u; cbn [is_processing]; [|exact H].
    destruct (negb (is_processing st)); cbn [is_processing workers]; [|exact H].
    intro Hp. destruct (H Hp) as [j [d Hj]]. exists j, d.
    rewrite nth_error_app1; [exact Hj|].
    apply nth_error_Some. rewrite Hj. discriminate.
  - unfold worker_step. destruct (nth_error (workers st) i) as [w|] eqn:Ei;
      [|exact H].
    destruct w as [| |d|]; try exact H.
    + destruct (is_processing st) eqn:Ep;
        cbn [set_worker is_processing workers]; intro Hp; [|congruence];
        destruct (H eq_refl) as [j [d Hj]]; exists j, d;
        rewrite nth_error_replace_nth;
        destruct (Nat.eqb_spec i j) as [<-|_]; congruence.
    + destruct (get_audio_data (audio_buffer st)) as [d b].
      intros _. exists i, d. cbn [workers].
      rewrite nth_error_replace_nth, Nat.eqb_refl, Ei. reflexivity.
    + cbn [is_processing]. discriminate.
Qed.

(** In every run of the coordinator from a listening state (any
    interleaving of audio callbacks and steps of the [_process_audio]
    threads), [is_processing] is set only while some thread is
    transcribing: the flag is never left set with no transcription under
    way. *)
Theorem processing_flag_has_transcriber (sqrt : Q -> Q) (cfg : AudioConfig)
    (es : list event)
    (Hp : is_processing (run sqrt cfg listening_JarvisSTT es) = true) :
  exists i data,
    nth_error (workers (run sqrt cfg listening_JarvisSTT es)) i
    = Some (WTranscribing data).
Proof.
  revert Hp. apply (run_invariant flag_backed sqrt cfg).
  - intros st e. apply step_flag_backed.
  - discriminate.
Qed.

Lemma processing_flag_has_transcriber_witness :
  exists i data,
    nth_error (workers (run sqrt_floor default_config listening_JarvisSTT
      ([EFrame loud_frame] ++ repeat (EFrame zero_frame) 5 ++
       [EWorker 0; EWorker 0]))) i = Some (WTranscribing data).
Proof.
  apply processing_flag_has_transcriber. vm_compute. reflexivity.
Defined.

(** * config_manager.ConfigManager *)

(** A value of the configuration as [json.load] builds it from
    [config.json]: a JSON object is a Python dict, kept in insertion order,
    and no dict is shared.  Dicts shared between key paths, which [set] can
    create, are modelled by [pyval] below. *)
Inductive json : Type :=
| JNull
| JBool (b : bool)
| JNum (q : Q)
| JStr (s : string)
| JArr (l : list json)
| JObj (kvs : list (string * json)).

Definition is_obj (v : json) : bool :=
  match v with JObj _ => true | _ => false end.

(** [d[key]] on a dict: [None] for a [KeyError]. *)
Fixpoint dict_get (key : string) (kvs : list (string * json)) : option json :=
  match kvs with
  | [] => None
  | (k, v) :: r => if String.eqb key k then Some v else dict_get key r
  end.

(** [d[key] = value]: replaces in place, or inserts at the end. *)
Fixpoint dict_set (key : string) (value : json) (kvs : list (string * json))
    : list (string * json) :=
  match kvs with
  | [] => [(key, value)]
  | (k, v) :: r =>
      if String.eqb key k then (k, value) :: r
      else (k, v) :: dict_set key value r
  end.

(** [key_path.split('.')]. *)
Fixpoint split_dot (s : string) : list string :=
  match s with
  | EmptyString => [EmptyString]
  | String c r =>
      let parts := split_dot r in
      if Ascii.eqb c "."%char then EmptyString :: parts
      else match parts with
           | p :: ps => String c p :: ps
           | [] => [String c EmptyString]
           end
  end.

(** The loop of [get]: [None] when [value[key]] raises [KeyError] (missing
    key) or [TypeError] (indexing a non-dict with a string). *)
Fixpoint json_get (keys : list string) (value : json) : option json :=
  match keys with
  | [] => Some value
  | key :: ks =>
      match value with
      | JObj kvs =>
          match dict_get key kvs with
          | Some v => json_get ks v
          | None => None
          end
      | _ => None
      end
  end.

(** [ConfigManager.get(key_path, default)] on the loaded configuration. *)
Definition cm_get (config : json) (key_path : string) (default : json) : json :=
  match json_get (split_dot key_path) config with
  | Some v => v
  | None => default
  end.

(** The loop of [set] from [current] with the keys [key :: rest]: missing
    intermediate keys get a new [{}]; a non-dict on the way ([key in current]
    or [current[key]] on a list, string, number, bool or None) raises
    [TypeError], written [None]; the configuration is then unchanged, since
    a [{}] is only inserted below existing dicts and nothing below a fresh
    [{}] can fail. *)
Fixpoint json_set_path (key : string) (rest : list string) (value current : json)
    {struct rest} : option json :=
  match current with
  | JObj kvs =>
      match rest with
      | [] => Some (JObj (dict_set key value kvs))
      | k' :: ks =>
          let child := match dict_get key kvs with
                       | Some c => c
                       | None => JObj []
                       end in
          match json_set_path k' ks value child with
          | Some c' => Some (JObj (dict_set key c' kvs))
          | None => None
          end
      end
  | _ => None
  end.

(** [ConfigManager.set(key_path, value)]: the new configuration, or [None]
    when it raises. *)
Definition cm_set (config : json) (key_path : string) (value : json)
    : option json :=
  match split_dot key_path with
  | [] => None
  | key :: rest => json_set_path key rest value config
  end.

(** [get_wake_words()]. *)
Definition get_wake_words (config : json) : json :=
  cm_get config "wake_words" (JArr [JStr "jarvis"; JStr "hey jarvis"]).

Fixpoint lower_words (l : list json) : option (list string) :=
  match l with
  | [] => Some []
  | JStr w :: r =>
      match lower_words r with Some ws => Some (str_lower w :: ws) | None => None end
  | _ :: _ => None   (* AttributeError: no [.lower()] *)
  end.

(** [[word.lower() for word in wake_words]]: iterating a string yields its
    characters, iterating a dict its keys; [None] when it raises. *)
Definition lower_all (v : json) : option (list string) :=
  match v with
  | JArr l => lower_words l
  | JStr s => Some (map (fun c => String (ascii_lower c) EmptyString)
                        (list_ascii_of_string s))
  | JObj kvs => Some (map (fun kv => str_lower (fst kv)) kvs)
  | _ => None      (* TypeError: not iterable *)
  end.

(** [WakeWordDetector()] with the wake words of the configuration. *)
Definition wake_detector_from_config (config : json) : option WakeWordDetector :=
  match lower_all (get_wake_words config) with
  | Some ws => Some (mkWakeWordDetector ws 0 2)
  | None => None
  end.

Lemma json_set_fails (key : string) (rest : list string) :
  forall value current,
  json_set_path key rest value current = None <->
  exists i x, (i <= length rest)%nat /\
    json_get (firstn i (key :: rest)) current = Some x /\ is_obj x = false.
Proof.
  revert key. induction rest as [|k' ks IH]; intros key value current.
  - split.
    + intro H. exists 0%nat, current. cbn. repeat split; [lia|].
      destruct current; try reflexivity. discriminate.
    + intros (i & x & Hi & Hg & Hx). assert (i = 0%nat) by (cbn in Hi; lia). subst i.
      cbn in Hg. injection Hg as <-. destruct current; try reflexivity.
      discriminate.
  - destruct current as [| | | | |kvs];
      try (split; [intros _; exists 0%nat; eexists; split; [lia|split; reflexivity]
                  |reflexivity]).
    cbn [json_set_path]. split.
    + intro H. destruct (json_set_path k' ks value _) as [c''|] eqn:E;
        [discriminate|].
      apply IH in E. destruct E as (i & x & Hi & Hg & Hx).
      destruct (dict_get key kvs) as [c|] eqn:Ek.
      * exists (S i), x. cbn [length firstn json_get]. rewrite Ek.
        repeat split; [cbn in Hi; lia|exact Hg|exact Hx].
      * exfalso. destruct i as [|i].
        -- cbn in Hg. injection Hg as <-. discriminate.
        -- cbn in Hg. discriminate.
    + intros (i & x & Hi & Hg & Hx). destruct i as [|i].
      { cbn in Hg. injection Hg as <-. discriminate. }
      cbn [firstn json_get] in Hg.
      destruct (dict_get key kvs) as [c|] eqn:Ek; [|discriminate].
      assert (E : json_set_path k' ks value c = None).
      { apply IH. exists i, x. repeat split; [cbn in Hi; lia|exact Hg|exact Hx]. }
      rewrite E. reflexivity.
Qed.

Lemma split_dot_cons (s : string) : exists k ks, split_dot s = k :: ks.
Proof.
  induction s as [|c r IH]; [eexists; eexists; reflexivity|].
  destruct IH as (k & ks & E). cbn [split_dot]. rewrite E.
  destruct (Ascii.eqb c "."%char); eexists; eexists; reflexivity.
Qed.

(** [set(key_path, value)] raises exactly when the configuration, or the
    value at some proper prefix of the key path, exists and is not a dict. *)
Theorem config_set_fails (config value : json) (key_path : string) :
  cm_set config key_path value = None <->
  exists i x, (i < length (split_dot key_path))%nat /\
    json_get (firstn i (split_dot key_path)) config = Some x /\
    is_obj x = false.
Proof.
  unfold cm_set. destruct (split_dot_cons key_path) as (key & rest & E).
  rewrite E, json_set_fails. cbn [length].
  split; intros (i & x & Hi & Hg & Hx); exists i, x; (split; [lia|]);
    split; assumption.
Qed.

(** When the configuration's [wake_words] entry is a string [w], the
    detector built from it takes every character of [w] (lower-cased) as a
    wake phrase: outside the cooldown, a call returns true whenever the text
    contains any of these characters, case-insensitively. *)
Theorem wake_words_string_chars (config : json) (w : string)
    (Hw : json_get ["wake_words"%string] config = Some (JStr w)) :
  exists d, wake_detector_from_config config = Some d /\
    wake_words d = map (fun c => String (ascii_lower c) EmptyString)
                       (list_ascii_of_string w) /\
    (forall t text, snd (detect d t text) =
       negb (Qltb t 2) &&
       existsb (fun c => str_contains (String (ascii_lower c) EmptyString)
                                      (str_lower text))
               (list_ascii_of_string w)).
Proof.
  unfold wake_detector_from_config, get_wake_words, cm_get.
  replace (split_dot "wake_words"%string) with ["wake_words"%string]
    by reflexivity.
  rewrite Hw. cbn [lower_all].
  eexists. split; [reflexivity|]. split; [reflexivity|].
  intros t text.
  assert (Ht : Qltb (t - 0) 2 = Qltb t 2).
  { destruct (Qltb t 2) eqn:E.
    - apply Qltb_true_iff in E. apply Qltb_true_iff. lra.
    - apply Qltb_false_iff in E. apply Qltb_false_iff. lra. }
  destruct (string_dec text EmptyString) as [->|Hne].
  - cbn [detect snd]. replace (existsb _ _) with false; [rewrite andb_false_r; reflexivity|].
    symmetry. destruct (existsb _ _) eqn:Ex; [|reflexivity].
    apply existsb_exists in Ex. destruct Ex as [c [_ Hc]].
    change (str_lower EmptyString) with EmptyString in Hc.
    rewrite str_contains_empty_text in Hc; [discriminate|]. discriminate.
  - rewrite (detect_nonempty _ t text Hne). cbn [last_detection cooldown wake_words].
    rewrite Ht. destruct (Qltb t 2); [reflexivity|]. cbn [negb andb].
    rewrite <- (existsb_map' (fun v => str_contains v (str_lower text))
                  (fun c => String (ascii_lower c) EmptyString)).
    destruct (find _ _) eqn:F.
    + rewrite (find_some_existsb _ _ _ F). reflexivity.
    + rewrite (find_none_existsb _ _ F). reflexivity.
Qed.

Lemma wake_words_string_chars_witness :
  exists d, wake_detector_from_config
              (JObj [("wake_words"%string, JStr "Jarvis")]) = Some d /\
    wake_words d = ["j"; "a"; "r"; "v"; "i"; "s"]%string.
Proof.
  destruct (wake_words_string_chars (JObj [("wake_words"%string, JStr "Jarvis")])
              "Jarvis" ltac:(vm_compute; reflexivity)) as (d & H1 & H2 & _).
  exists d. split; [exact H1|]. rewrite H2. vm_compute. reflexivity.
Defined.

(** ** The first completed utterance ends [listen_and_transcribe] *)

(** The chunks actually obtained from a sequence of [stream.read] outcomes. *)
Fixpoint read_chunks (reads : list (option (list Z))) : list (list Z) :=
  match reads with
  | [] => []
  | None :: rs => read_chunks rs
  | Some c :: rs => c :: read_chunks rs
  end.

Lemma listen_loop_first_utterance (sqrt : Q -> Q) (cfg : AudioConfig)
    (transcribe : list Z -> string) (rest : list (option (list Z))) :
  forall pre s,
  snd (process_frames sqrt s cfg (read_chunks pre))
    = repeat false (length (read_chunks pre) - 1) ++ [true] ->
  listen_loop sqrt cfg transcribe s (pre ++ rest)
    = (let data := fst (get_audio_data (fst (process_frames sqrt s cfg (read_chunks pre)))) in
       if (0 <? length data)%nat then transcribe data else EmptyString).
Proof.
  induction pre as [|r rs IH]; intros s Hflags.
  - cbn in Hflags. discriminate.
  - destruct r as [c|]; [|exact (IH s Hflags)].
    cbn [read_chunks app listen_loop] in *.
    rewrite process_frames_cons in Hflags |- *.
    destruct (add_chunk sqrt s c cfg) as [s1 b].
    destruct (read_chunks rs) as [|c' cs] eqn:Ers.
    + cbn in Hflags |- *. injection Hflags as ->.
      destruct (get_audio_data s1) as [data ?]. reflexivity.
    + rewrite <- Ers in *.
      destruct (process_frames sqrt s1 cfg (read_chunks rs)) as [s2 bs] eqn:Ep.
      cbn [fst snd] in Hflags |- *.
      replace (length (c :: read_chunks rs) - 1)%nat
        with (S (length (read_chunks rs) - 1)) in Hflags
        by (rewrite Ers; cbn [length]; lia).
      cbn [repeat app] in Hflags. injection Hflags as -> Hbs.
      rewrite (IH s1); [rewrite Ep; reflexivity|].
      rewrite Ep. exact Hbs.
Qed.

(** [listen_and_transcribe] stops at the first chunk on which [add_chunk]
    reports a completed utterance: if the chunks read before it and up to it
    (failed reads skipped) give [False ... False True], the result is the
    stripped transcription of the buffered audio ([""] if the buffer is
    empty), whatever reads would have followed. *)
Theorem listen_first_utterance (sqrt : Q -> Q) (cfg : AudioConfig)
    (transcribe : list Z -> string) (pre rest : list (option (list Z)))
    (Hflags : snd (process_frames sqrt fresh_AudioBuffer cfg (read_chunks pre))
              = repeat false (length (read_chunks pre) - 1) ++ [true]) :
  listen_and_transcribe sqrt cfg transcribe (pre ++ rest)
    = py_strip
        (let data := fst (get_audio_data
                       (fst (process_frames sqrt fresh_AudioBuffer cfg (read_chunks pre)))) in
         if (0 <? length data)%nat then transcribe data else EmptyString).
Proof.
  unfold listen_and_transcribe.
  rewrite (listen_loop_first_utterance sqrt cfg transcribe rest pre _ Hflags).
  cbv zeta. destruct (if (0 <? _)%nat then _ else _) as [|a t]; reflexivity.
Qed.

Lemma listen_first_utterance_witness :
  listen_and_transcribe sqrt_floor default_config (fun _ => "  hello  "%string)
    ([Some loud_frame; None] ++ repeat (Some zero_frame) 5 ++ [Some loud_frame2])
  = "hello"%string.
Proof.
  rewrite app_assoc.
  rewrite (listen_first_utterance sqrt_floor default_config (fun _ => "  hello  "%string)
             ([Some loud_frame; None] ++ repeat (Some zero_frame) 5) [Some loud_frame2]
             ltac:(vm_compute; reflexivity)).
  vm_compute. reflexivity.
Defined.

(** ** [get] and [set] with shared dicts *)

(** [set] stores the caller's object and [get] returns the stored dicts
    themselves, so one dict object can be reached along several key paths.
    Here a dict is a reference [PDict a] to the object at address [a] of a
    heap of dict objects; the other values are immutable. *)
Inductive pyval : Type :=
| PNull
| PBool (b : bool)
| PNum (q : Q)
| PStr (s : string)
| PList (l : list pyval)
| PDict (a : nat).

(** The dict objects, by address, each kept in insertion order. *)
Definition heap : Type := list (list (string * pyval)).

(** [d[key]] on a dict object: [None] for a [KeyError]. *)
Fixpoint hdict_get (key : string) (kvs : list (string * pyval)) : option pyval :=
  match kvs with
  | [] => None
  | (k, v) :: r => if String.eqb key k then Some v else hdict_get key r
  end.

(** [d[key] = value]: replaces in place, or inserts at the end. *)
Fixpoint hdict_set (key : string) (value : pyval) (kvs : list (string * pyval))
    : list (string * pyval) :=
  match kvs with
  | [] => [(key, value)]
  | (k, v) :: r =>
      if String.eqb key k then (k, value) :: r
      else (k, v) :: hdict_set key value r
  end.

(** The loop of [get] from [value]: [None] on a [KeyError] or a
    [TypeError] (a non-dict indexed with a string); a reference to no object
    does not occur in a heap built by the program and also gives [None]. *)
Fixpoint ref_get_path (h : heap) (keys : list string) (value : pyval)
    : option pyval :=
  match keys with
  | [] => Some value
  | key :: ks =>
      match value with
      | PDict a =>
          match nth_error h a with
          | Some kvs =>
              match hdict_get key kvs with
              | Some v => ref_get_path h ks v
              | None => None
              end
          | None => None
          end
      | _ => None
      end
  end.

(** [ConfigManager.get(key_path, default)], [root] being [self._config]. *)
Definition ref_get (h : heap) (root : pyval) (key_path : string) (default : pyval)
    : pyval :=
  match ref_get_path h (split_dot key_path) root with
  | Some v => v
  | None => default
  end.

(** The loop [for key in keys[:-1]] of [set] from [current]: a missing key
    gets a new [{}], allocated at the end of the heap; the result is the
    heap and the address of the dict reached.  A non-dict on the way raises
    [TypeError] ([key in current] or [current[key]] on a string, list,
    number, bool or None), written [None]; nothing has been changed then,
    since a [{}] is only inserted below an existing dict and nothing below
    a fresh [{}] can fail. *)
Fixpoint ref_set_nav (h : heap) (current : pyval) (keys : list string)
    {struct keys} : option (heap * nat) :=
  match current with
  | PDict a =>
      match keys with
      | [] => Some (h, a)
      | key :: ks =>
          match nth_error h a with
          | Some kvs =>
              match hdict_get key kvs with
              | Some v => ref_set_nav h v ks
              | None =>
                  let a' := length h in
                  ref_set_nav (replace_nth a (hdict_set key (PDict a') kvs) h ++ [[]])
                    (PDict a') ks
              end
          | None => None
          end
      end
  | _ => None
  end.

(** [ConfigManager.set(key_path, value)]: the new heap, or [None] when it
    raises.  [current[keys[-1]] = value] on a non-dict raises [TypeError]
    too; [ref_set_nav] only ends on a dict. *)
Definition ref_set (h : heap) (root : pyval) (key_path : string) (value : pyval)
    : option heap :=
  match ref_set_nav h root (removelast (split_dot key_path)) with
  | Some (h1, a) =>
      match nth_error h1 a with
      | Some kvs =>
          Some (replace_nth a (hdict_set (last (split_dot key_path) EmptyString)
                                         value kvs) h1)
      | None => None
      end
  | None => None
  end.

(** The addresses of the dicts met from [current] along [keys], up to the
    first missing key. *)
Fixpoint path_dicts (h : heap) (current : pyval) (keys : list string)
    {struct keys} : list nat :=
  match current with
  | PDict a =>
      a :: match keys with
           | [] => []
           | key :: ks =>
               match nth_error h a with
               | Some kvs =>
                   match hdict_get key kvs with
                   | Some v => path_dicts h v ks
                   | None => []
                   end
               | None => []
               end
           end
  | _ => []
  end.

Lemma hdict_get_set_same (key : string) (value : pyval)
    (kvs : list (string * pyval)) :
  hdict_get key (hdict_set key value kvs) = Some value.
Proof.
  induction kvs as [|[k v] r IH]; cbn [hdict_set hdict_get].
  - rewrite String.eqb_refl. reflexivity.
  - destruct (String.eqb_spec key k) as [<-|Hne]; cbn [hdict_get].
    + rewrite String.eqb_refl. reflexivity.
    + apply String.eqb_neq in Hne. rewrite Hne. exact IH.
Qed.

Lemma length_replace_nth {A : Type} (i : nat) (x : A) (l : list A) :
  length (replace_nth i x l) = length l.
Proof.
  revert i. induction l as [|y r IH]; intro i; [destruct i; reflexivity|].
  destruct i; cbn; [reflexivity|]. rewrite IH. reflexivity.
Qed.

Lemma nth_error_replace_nth_other {A : Type} (i j : nat) (x : A) (l : list A) :
  i <> j -> nth_error (replace_nth i x l) j = nth_error l j.
Proof.
  intro Hij. rewrite nth_error_replace_nth.
  destruct (Nat.eqb_spec i j); [contradiction|reflexivity].
Qed.

Lemma ref_get_path_app (h : heap) (p r : list string) (x : pyval) :
  ref_get_path h (p ++ r) x =
  match ref_get_path h p x with Some y => ref_get_path h r y | None => None end.
Proof.
  revert x. induction p as [|k p IH]; intro x; [reflexivity|].
  cbn [app ref_get_path]. destruct x; try reflexivity.
  destruct (nth_error h a); [|reflexivity].
  destruct (hdict_get k l); [apply IH|reflexivity].
Qed.

Lemma path_dicts_fresh (h : heap) (a : nat) (keys : list string) :
  nth_error h a = Some [] -> path_dicts h (PDict a) keys = [a].
Proof. intro Ha. destruct keys; cbn; [reflexivity|]. rewrite Ha. reflexivity. Qed.

Lemma nth_error_alloc (h : heap) (a : nat) (d : list (string * pyval)) :
  (a < length h)%nat ->
  nth_error (replace_nth a d h ++ [[]]) (length h) = Some [] /\
  length (replace_nth a d h ++ [[]]) = S (length h) /\
  forall b, (b < length h)%nat ->
    nth_error (replace_nth a d h ++ [[]]) b = nth_error (replace_nth a d h) b.
Proof.
  intro Ha. split; [|split].
  - rewrite nth_error_app2; rewrite length_replace_nth; [|lia].
    rewrite Nat.sub_diag. reflexivity.
  - rewrite length_app, length_replace_nth. cbn. lia.
  - intros b Hb. apply nth_error_app1. rewrite length_replace_nth. exact Hb.
Qed.

(** [set]'s navigation changes only the dicts it passes through (at most the
    last existing one gains a key) and allocates new ones; it ends on one of
    the dicts it passed through or on a new one. *)
Lemma ref_set_nav_frame (keys : list string) :
  forall h current h1 af,
  ref_set_nav h current keys = Some (h1, af) ->
  (forall b, (b < length h)%nat -> ~ In b (path_dicts h current keys) ->
     nth_error h1 b = nth_error h b) /\
  (In af (path_dicts h current keys) \/ (length h <= af)%nat) /\
  (length h <= length h1)%nat.
Proof.
  induction keys as [|key ks IH]; intros h current h1 af Hn;
    (destruct current as [| | | | |a]; try discriminate); cbn [ref_set_nav] in Hn.
  - injection Hn as <- <-. cbn [path_dicts].
    split; [reflexivity|]. split; [left; left; reflexivity|lia].
  - destruct (nth_error h a) as [kvs|] eqn:Ea; [|discriminate].
    assert (Hal : (a < length h)%nat)
      by (apply nth_error_Some; rewrite Ea; discriminate).
    cbn [path_dicts]. rewrite Ea.
    destruct (hdict_get key kvs) as [v|] eqn:Ek.
    + destruct (IH h v h1 af Hn) as (F & A & L).
      split; [|split; [|exact L]].
      * intros b Hb Hnin. apply F; [exact Hb|]. intro Hin. apply Hnin. right. exact Hin.
      * destruct A as [A|A]; [left; right; exact A|right; exact A].
    + destruct (nth_error_alloc h a (hdict_set key (PDict (length h)) kvs) Hal)
        as (N & L1 & P).
      destruct (IH _ _ h1 af Hn) as (F & A & L).
      rewrite (path_dicts_fresh _ _ ks N) in F, A. rewrite L1 in F, L.
      split; [|split].
      * intros b Hb Hnin. rewrite F; [|lia|].
        -- rewrite (P b Hb). apply nth_error_replace_nth_other.
           intros ->. apply Hnin. left. reflexivity.
        -- intros [E|[]]. lia.
      * right. destruct A as [[E|[]]|A]; lia.
      * lia.
Qed.

(** After [set]'s navigation, the key path leads to the dict it reached in
    any heap that agrees with the resulting one outside that dict, provided
    the dicts met on the way are distinct. *)
Lemma ref_set_nav_reaches (keys : list string) :
  forall h current h1 af,
  ref_set_nav h current keys = Some (h1, af) ->
  NoDup (path_dicts h current keys) ->
  forall h2, (forall b, b <> af -> nth_error h2 b = nth_error h1 b) ->
  ref_get_path h2 keys current = Some (PDict af).
Proof.
  induction keys as [|key ks IH]; intros h current h1 af Hn Hnd h2 Hagree;
    (destruct current as [| | | | |a]; try discriminate); cbn [ref_set_nav] in Hn.
  - injection Hn as <- <-. reflexivity.
  - pose proof (ref_set_nav_frame (key :: ks) h (PDict a) h1 af Hn) as (F & A & _).
    cbn [ref_set_nav] in Hn.
    destruct (nth_error h a) as [kvs|] eqn:Ea; [|discriminate].
    assert (Hal : (a < length h)%nat)
      by (apply nth_error_Some; rewrite Ea; discriminate).
    cbn [path_dicts] in Hnd, F, A. rewrite Ea in Hnd, F, A.
    cbn [ref_get_path].
    destruct (hdict_get key kvs) as [v|] eqn:Ek.
    + inversion Hnd as [|a' l Hnin Hnd']; subst a' l.
      pose proof (ref_set_nav_frame ks h v h1 af Hn) as (F' & A' & _).
      assert (Haf : a <> af).
      { intros ->. destruct A' as [A'|A']; [contradiction|lia]. }
      rewrite (Hagree a Haf), (F' a Hal Hnin), Ea, Ek.
      exact (IH h v h1 af Hn Hnd' h2 Hagree).
    + destruct (nth_error_alloc h a (hdict_set key (PDict (length h)) kvs) Hal)
        as (N & L1 & P).
      pose proof (ref_set_nav_frame ks _ _ h1 af Hn) as (F' & A' & _).
      rewrite (path_dicts_fresh _ _ ks N) in F', A'. rewrite L1 in F', A'.
      assert (Haf : a <> af).
      { intros ->. destruct A' as [[E|[]]|A']; lia. }
      rewrite (Hagree a Haf), F'; [|lia|intros [E|[]]; lia].
      rewrite (P a Hal), nth_error_replace_nth, Nat.eqb_refl, Ea. cbn [option_map].
      rewrite hdict_get_set_same.
      apply (IH _ _ h1 af Hn); [|exact Hagree].
      rewrite (path_dicts_fresh _ _ ks N). constructor; [intros []|constructor].
Qed.

Lemma split_dot_last (s : string) :
  split_dot s = removelast (split_dot s) ++ [last (split_dot s) EmptyString].
Proof.
  apply app_removelast_last. destruct (split_dot_cons s) as (k & ks & ->).
  discriminate.
Qed.

(** After a successful [set(key_path, value)], [get(key_path, default)]
    returns [value] itself, and a key path extending [key_path] reads
    inside [value], provided the dicts [set] passes through are distinct
    objects (always so when no dict contains itself). *)
Theorem config_set_then_get (h h' : heap) (root value : pyval) (key_path : string)
    (Hset : ref_set h root key_path value = Some h')
    (Hdistinct : NoDup (path_dicts h root (removelast (split_dot key_path)))) :
  (forall default, ref_get h' root key_path default = value) /\
  (forall kq rest default, split_dot kq = split_dot key_path ++ rest ->
     ref_get h' root kq default =
       match ref_get_path h' rest value with Some x => x | None => default end).
Proof.
  unfold ref_set in Hset.
  destruct (ref_set_nav h root (removelast (split_dot key_path))) as [[h1 af]|]
    eqn:En; [|discriminate].
  destruct (nth_error h1 af) as [kvs|] eqn:Ea; [|discriminate].
  injection Hset as <-.
  set (k := last (split_dot key_path) EmptyString) in *.
  assert (Hpar : ref_get_path (replace_nth af (hdict_set k value kvs) h1)
                   (removelast (split_dot key_path)) root = Some (PDict af)).
  { apply (ref_set_nav_reaches _ h root h1 af En Hdistinct).
    intros b Hb. apply nth_error_replace_nth_other. intros ->. apply Hb. reflexivity. }
  assert (Hfull : ref_get_path (replace_nth af (hdict_set k value kvs) h1)
                    (split_dot key_path) root = Some value).
  { rewrite split_dot_last, ref_get_path_app, Hpar. fold k.
    cbn [ref_get_path]. rewrite nth_error_replace_nth, Nat.eqb_refl, Ea.
    cbn [option_map]. rewrite hdict_get_set_same. reflexivity. }
  unfold ref_get. split.
  - intro d. rewrite Hfull. reflexivity.
  - intros kq r d Hq. rewrite Hq, ref_get_path_app, Hfull. reflexivity.
Qed.

(** One dict stored under both ["a"] and ["b"]; [set("a.x", 2)]. *)
Definition shared_heap : heap :=
  [[("a"%string, PDict 1); ("b"%string, PDict 1)]; [("x"%string, PNum 1)]].

Lemma config_set_then_get_witness :
  exists h', ref_set shared_heap (PDict 0) "a.x" (PNum 2) = Some h' /\
    ref_get h' (PDict 0) "a.x" PNull = PNum 2 /\
    ref_get h' (PDict 0) "b.x" PNull = PNum 2.
Proof.
  assert (H : ref_set shared_heap (PDict 0) "a.x" (PNum 2)
              = Some [[("a"%string, PDict 1); ("b"%string, PDict 1)];
                      [("x"%string, PNum 2)]])
    by (vm_compute; reflexivity).
  eexists. split; [exact H|]. split.
  - apply (proj1 (config_set_then_get _ _ _ _ _ H ltac:(vm_compute; repeat constructor; vm_compute; intuition discriminate))).
  - vm_compute. reflexivity.
Defined.

Lemma ref_get_path_in_path_dicts (h : heap) (keys : list string) :
  forall current a, ref_get_path h keys current = Some (PDict a) ->
  In a (path_dicts h current keys).
Proof.
  induction keys as [|key ks IH]; intros current a Hg.
  - cbn in Hg. injection Hg as ->. left. reflexivity.
  - destruct current as [| | | | |c]; try discriminate. cbn in Hg |- *.
    destruct (nth_error h c) as [kvs|]; [|discriminate].
    destruct (hdict_get key kvs) as [v|]; [|discriminate].
    right. exact (IH v a Hg).
Qed.

(** A key path that reaches a dict through distinct dicts still reaches it
    after a change confined to that dict. *)
Lemma ref_get_path_stable (h h2 : heap) (keys : list string) :
  forall current a, ref_get_path h keys current = Some (PDict a) ->
  NoDup (path_dicts h current keys) ->
  (forall b, b <> a -> nth_error h2 b = nth_error h b) ->
  ref_get_path h2 keys current = Some (PDict a).
Proof.
  induction keys as [|key ks IH]; intros current a Hg Hnd Hagree; [exact Hg|].
  destruct current as [| | | | |c]; try discriminate.
  cbn [ref_get_path path_dicts] in Hg, Hnd |- *.
  destruct (nth_error h c) as [kvs|] eqn:Ec; [|discriminate].
  destruct (hdict_get key kvs) as [v|] eqn:Ek; [|discriminate].
  inversion Hnd as [|c' l Hnin Hnd']; subst c' l.
  assert (Hca : c <> a).
  { intros ->. apply Hnin. exact (ref_get_path_in_path_dicts h ks v a Hg). }
  rewrite (Hagree c Hca), Ec, Ek. exact (IH v a Hg Hnd' Hagree).
Qed.

Lemma ref_set_nav_existing (h : heap) (keys : list string) :
  forall current a, ref_get_path h keys current = Some (PDict a) ->
  ref_set_nav h current keys = Some (h, a).
Proof.
  induction keys as [|key ks IH]; intros current a Hg.
  - cbn in Hg. injection Hg as ->. reflexivity.
  - destruct current as [| | | | |c]; try discriminate. cbn in Hg |- *.
    destruct (nth_error h c) as [kvs|]; [|discriminate].
    destruct (hdict_get key kvs) as [v|]; [|discriminate].
    exact (IH v a Hg).
Qed.

(** [set] writes into the dict object itself: when the parent of
    [key_path] is an existing dict that another key path [kq] also reaches
    (through distinct dicts), and [kq] ends with the same key, then after
    the [set] [get(kq)] returns the new value too. *)
Theorem config_set_shared_dict (h h' : heap) (root value : pyval)
    (key_path kq : string) (a : nat)
    (Hset : ref_set h root key_path value = Some h')
    (Hparent : ref_get_path h (removelast (split_dot key_path)) root = Some (PDict a))
    (Halias : ref_get_path h (removelast (split_dot kq)) root = Some (PDict a))
    (Hdistinct : NoDup (path_dicts h root (removelast (split_dot kq))))
    (Hlast : last (split_dot kq) EmptyString = last (split_dot key_path) EmptyString) :
  forall default, ref_get h' root kq default = value.
Proof.
  intro d. unfold ref_set in Hset.
  rewrite (ref_set_nav_existing h _ root a Hparent) in Hset.
  destruct (nth_error h a) as [kvs|] eqn:Ea; [|discriminate].
  injection Hset as <-.
  unfold ref_get. rewrite (split_dot_last kq), ref_get_path_app.
  rewrite (ref_get_path_stable h _ _ root a Halias Hdistinct).
  - cbn [ref_get_path]. rewrite nth_error_replace_nth, Nat.eqb_refl, Ea.
    cbn [option_map]. rewrite Hlast, hdict_get_set_same. reflexivity.
  - intros b Hb. apply nth_error_replace_nth_other. intros ->. apply Hb. reflexivity.
Qed.

Lemma config_set_shared_dict_witness :
  exists h', ref_set shared_heap (PDict 0) "a.x" (PNum 2) = Some h' /\
    ref_get shared_heap (PDict 0) "b.x" PNull = PNum 1 /\
    ref_get h' (PDict 0) "b.x" PNull = PNum 2.
Proof.
  assert (H : ref_set shared_heap (PDict 0) "a.x" (PNum 2)
              = Some [[("a"%string, PDict 1); ("b"%string, PDict 1)];
                      [("x"%string, PNum 2)]])
    by (vm_compute; reflexivity).
  eexists. split; [exact H|]. split; [vm_compute; reflexivity|].
  apply (config_set_shared_dict shared_heap _ (PDict 0) (PNum 2) "a.x" "b.x" 1 H).
  - vm_compute. reflexivity.
  - vm_compute. reflexivity.
  - vm_compute. repeat constructor; vm_compute; intuition discriminate.
  - vm_compute. reflexivity.
Defined.
